(** * Chapter word-count ingestion ([ingestion-script/local_title.py])

    A shallow embedding of the chapter word-count pipeline: the text
    helpers [clean_text] and [word_count], the chapter generator
    [parse_chapters_for_wordcount] over an ElementTree-shaped document, the
    database writer [insert_rows] and the per-title loop [main].

    Conventions.
    - A Python [str] is a [string]; a character is a code point below 256.
    - [None] is [None]; an optional text node is an [option string].
    - A Python exception is a value of [exn]; a computation that may raise
      returns a [result].
    - The database, the network and the XML parser are outside the
      repository: the first is an explicit state, all three can fail the
      way the environment [Env] says. *)

From Stdlib Require Import Strings.String Strings.Ascii List Arith Bool Lia.
From stdpp Require Import gmap strings.
From Equations Require Import Equations.
Import ListNotations.

Local Open Scope string_scope.
Local Open Scope list_scope.
Local Open Scope bool_scope.

#[local] Arguments String.append !_ _ / : simpl nomatch.

(** A value together with the equation that names it, for definitions
    whose termination depends on the outcome of a test. *)
Definition inspect {A : Type} (a : A) : {b : A | a = b} := exist _ a eq_refl.

(** ** Python strings *)

Module PyStr.

(** [str.isspace] on one character, as [Py_UNICODE_ISSPACE] decides it for
    code points below 256: TAB, LF, VT, FF, CR, FS, GS, RS, US, SPACE,
    NEL and NBSP. The regular expression class [\s] on a [str] pattern,
    [str.strip()] and [str.split()] all use this predicate. *)
Definition isspace (c : ascii) : bool :=
  let n := nat_of_ascii c in
  (((9 <=? n) && (n <=? 13)) || ((28 <=? n) && (n <=? 32))
   || (n =? 133) || (n =? 160))%nat.

(** Truth value of a string: [if text:]. *)
Definition truthy (s : string) : bool :=
  match s with EmptyString => false | String _ _ => true end.

(** [s.lstrip()] *)
Fixpoint lstrip (s : string) : string :=
  match s with
  | EmptyString => EmptyString
  | String c r => if isspace c then lstrip r else s
  end.

(** [s.rstrip()] *)
Fixpoint rstrip (s : string) : string :=
  match s with
  | EmptyString => EmptyString
  | String c r =>
      match rstrip r with
      | EmptyString => if isspace c then EmptyString else String c EmptyString
      | r' => String c r'
      end
  end.

(** [s.strip()] *)
Definition strip (s : string) : string := rstrip (lstrip s).

(** The maximal prefix without whitespace, and what follows it. *)
Fixpoint span_word (s : string) : string * string :=
  match s with
  | EmptyString => (EmptyString, EmptyString)
  | String c r =>
      if isspace c then (EmptyString, s)
      else (String c (fst (span_word r)), snd (span_word r))
  end.

Lemma span_word_length s : String.length (snd (span_word s)) <= String.length s.
Proof.
  induction s as [|c r IH]; simpl; [lia|].
  destruct (isspace c); simpl; lia.
Qed.

Lemma lstrip_length s : String.length (lstrip s) <= String.length s.
Proof.
  induction s as [|c r IH]; simpl; [lia|].
  destruct (isspace c); simpl; lia.
Qed.

(** [s.split()] with no separator: skip whitespace, take the maximal run
    of other characters as a word, go on behind it. *)
Equations? split (s : string) : list string by wf (String.length s) lt :=
  split s with inspect (lstrip s) := {
    | exist _ EmptyString _ => [];
    | exist _ (String c r) H =>
        String c (fst (span_word r)) :: split (snd (span_word r)) }.
Proof.
  pose proof (span_word_length r) as Hw. pose proof (lstrip_length s) as Hs.
  rewrite H in Hs. simpl in Hs. lia.
Qed.

(** [needle in hay] *)
Fixpoint contains (needle hay : string) : bool :=
  String.prefix needle hay
  || match hay with
     | EmptyString => false
     | String _ r => contains needle r
     end.

(** [s.endswith(suffix)] *)
Fixpoint endswith (s suffix : string) : bool :=
  String.eqb s suffix
  || match s with
     | EmptyString => false
     | String _ r => endswith r suffix
     end.

End PyStr.

(** ** Regular expressions, as far as [re.sub] is used *)

Module Re.

(** A compiled pattern is its matcher at the start of a string: [Some r]
    when the pattern matches a prefix and [r] is what follows the match.
    Both patterns of the program match at least one character. *)
Record pattern := {
  match_at : string -> option string;
  match_shrinks : forall s r, match_at s = Some r -> String.length r < String.length s
}.

(** [re.sub(pattern, repl, string)]: leftmost matches, left to right, none
    overlapping; each is replaced by [repl], everything else is copied. *)
Equations? sub (p : pattern) (repl s : string) : string by wf (String.length s) lt :=
  sub p repl EmptyString := EmptyString;
  sub p repl (String c r) with inspect (match_at p (String c r)) := {
    | exist _ (Some rest) H => repl +:+ sub p repl rest;
    | exist _ None _ => String c (sub p repl r) }.
Proof.
  apply (match_shrinks p) in H. exact H.
Qed.

(** What follows the first [>] of [s]. *)
Fixpoint after_gt (s : string) : option string :=
  match s with
  | EmptyString => None
  | String c r => if Ascii.eqb c ">" then Some r else after_gt r
  end.

(** [<[^>]+>] at the start of a string: a [<], one character or more that
    is not [>] (a newline is one), and the first [>] behind them. *)
Definition tag_match (s : string) : option string :=
  match s with
  | String c (String d r) =>
      if Ascii.eqb c "<" && negb (Ascii.eqb d ">") then after_gt r else None
  | _ => None
  end.

Lemma after_gt_length s r : after_gt s = Some r -> String.length r < S (String.length s).
Proof.
  revert r. induction s as [|c s IH]; simpl; intros r H; [discriminate|].
  destruct (Ascii.eqb c ">").
  - injection H as <-. lia.
  - apply IH in H. lia.
Qed.

Lemma tag_match_shrinks s r : tag_match s = Some r -> String.length r < String.length s.
Proof.
  destruct s as [|c [|d s]]; simpl; try discriminate.
  destruct (Ascii.eqb c "<" && negb (Ascii.eqb d ">")); [|discriminate].
  intros H. apply after_gt_length in H. lia.
Qed.

(** [r"<[^>]+>"] *)
Definition TAG : pattern := {| match_at := tag_match; match_shrinks := tag_match_shrinks |}.

(** [\s+] at the start of a string: a whitespace character and all that
    follow it directly. *)
Definition spaces_match (s : string) : option string :=
  match s with
  | String c r => if PyStr.isspace c then Some (PyStr.lstrip r) else None
  | EmptyString => None
  end.

Lemma spaces_match_shrinks s r :
  spaces_match s = Some r -> String.length r < String.length s.
Proof.
  destruct s as [|c s]; simpl; [discriminate|].
  destruct (PyStr.isspace c); [|discriminate].
  intros H. injection H as <-. pose proof (PyStr.lstrip_length s). lia.
Qed.

(** [r"\s+"] *)
Definition SPACES : pattern :=
  {| match_at := spaces_match; match_shrinks := spaces_match_shrinks |}.

End Re.

(** ** Helpers of the script *)

(** [clean_text]: strip XML tags and return plain text. *)
Definition clean_text (xml_content : string) : string :=
  (* remove tags *)
  let text := Re.sub Re.TAG " " xml_content in
  (* normalize whitespace *)
  let text := PyStr.strip (Re.sub Re.SPACES " " text) in
  text.

(** [word_count]: number of words in a text. *)
Definition word_count (text : string) : nat :=
  if negb (PyStr.truthy text) then 0 else List.length (PyStr.split text).

(** ** Exceptions *)

(** The exceptions the script can meet; all derive from [Exception]. *)
Inductive exn : Type :=
| RuntimeError (title_number status_code : nat) (* raised by [fetch_title_xml] *)
| RequestException                              (* raised by [requests.get] *)
| ParseError                                    (* raised by [ET.fromstring] *)
| AttributeError                                (* an attribute of [None] *)
| DatabaseError.                                (* raised by psycopg2 *)

Inductive result (A : Type) : Type :=
| Ok (a : A)
| Raise (e : exn).
Arguments Ok {A} a.
Arguments Raise {A} e.

Definition bind {A B : Type} (m : result A) (k : A -> result B) : result B :=
  match m with
  | Ok a => k a
  | Raise e => Raise e
  end.

Declare Scope result_scope.
Delimit Scope result_scope with result.
Notation "'let?' x := m 'in' k" := (bind m (fun x => k))
  (at level 10, x pattern, m at level 100, k at level 200) : result_scope.

(** Run [f] on every element in order; the first exception ends it. This is
    what [list(generator)] does with a generator body. *)
Fixpoint collect {A B : Type} (f : A -> result B) (l : list A) : result (list B) :=
  match l with
  | [] => Ok []
  | a :: l' =>
      (let? b := f a in
       let? bs := collect f l' in
       Ok (b :: bs))%result
  end.

(** ** ElementTree *)

Module ET.

(** [xml.etree.ElementTree.Element]: tag, attribute dictionary, the text
    before the first child, the text behind the end tag, the children. *)
#[warnings="-register-all"] Inductive Element : Type :=
  mkElement {
    tag : string;
    attrib : gmap string string;
    text : option string;
    tail : option string;
    children : list Element
  }.

(** [element.iter()]: the element and all its descendants, in document
    order. *)
Fixpoint iter (element : Element) : list Element :=
  element :: flat_map iter (children element).

(** [element.find(name)] for a plain tag name: the first direct child
    with that tag. *)
Definition find (element : Element) (name : string) : option Element :=
  List.find (fun child => String.eqb (tag child) name) (children element).

(** [element.find('.//NAME[@KEY="VALUE"]')]: the first element below
    [element], in document order, with that tag and that attribute
    value. The element itself is not a candidate. *)
Definition find_descendant (element : Element) (name key value : string)
  : option Element :=
  List.find
    (fun e => String.eqb (tag e) name
              && match attrib e !! key with
                 | Some v => String.eqb v value
                 | None => false
                 end)
    (flat_map iter (children element)).

End ET.

Import ET.

(** ** The chapter generator *)

(** The inner function [extract_text]: all text of an element. The source
    recurses once for every level of the document, and the interpreter ends
    a recursion deeper than its limit by a RecursionError; the function
    below is the source on the documents it runs through, those nested less
    deep than that limit. *)
Fixpoint extract_text (element : Element) : string :=
  let text0 := "" in
  let text1 :=
    match text element with
    | Some t => if PyStr.truthy t then text0 +:+ t +:+ " " else text0
    | None => text0
    end in
  fold_left
    (fun acc child =>
       let acc := acc +:+ extract_text child in
       match tail child with
       | Some t => if PyStr.truthy t then acc +:+ t +:+ " " else acc
       | None => acc
       end)
    (children element) text1.

(** The test of line 102. *)
Definition is_chapter (chapter : Element) : bool :=
  PyStr.endswith (tag chapter) "DIV3"
  && match attrib chapter !! "TYPE" with
     | Some v => String.eqb v "CHAPTER"
     | None => false
     end.

(** The body of the loop for one chapter: the tuple it yields. *)
Definition chapter_tuple (chapter : Element) : result (string * string * nat) :=
  (* Get chapter identifier (N attribute) *)
  let chapter_label := default "" (attrib chapter !! "N") in
  (* Get chapter heading *)
  let heading_el := ET.find chapter "HEAD" in
  (let? chapter_heading :=
     match heading_el with
     | Some h =>
         match text h with
         | Some t => Ok (PyStr.strip t)
         | None => Raise AttributeError
         end
     | None => Ok ""
     end in
   (* Extract all text from this chapter *)
   let chapter_text := extract_text chapter in
   (* Clean and count words *)
   let plain_text := clean_text chapter_text in
   let wc := word_count plain_text in
   Ok (chapter_label, chapter_heading, wc))%result.

(** ** The outside world: console, database, network, parser *)

(** One row of [ecfr_chapter_wordcount], as [INSERT_SQL] writes it. The
    columns [id] and [downloaded_at] are filled by the database. *)
Record Row : Type := mkRow {
  col_title : nat;
  col_chapter_identifier : string;
  col_chapter_heading : string;
  col_word_count : nat;
  col_character_count : nat;
  col_is_reserved : bool
}.

(** What the script prints. *)
Inductive line : Type :=
| msg_setup                                (* "Setting up PostgreSQL" *)
| msg_downloading (title_number : nat)     (* "Downloading Title n from url" *)
| msg_no_title                             (* "Warning: Could not find TITLE element" *)
| msg_inserted (title count : nat)         (* "Title n: inserted wordcount for c chapters" *)
| msg_error (title : nat) (e : exn)        (* "Error processing Title n: e" *)
| msg_done.                                (* "All titles processed." *)

(** The state the script acts on: the committed rows of the table in the
    order of their commit, the number of database connections that
    [connect] has opened and the script has not closed by its own
    [conn.close()], and the console. The counter follows the calls the
    script makes and nothing else: a connection object that the interpreter
    collects when the last reference to it goes, as it does with the one of
    a failed batch once the handler in [main] is left, is closed by its
    destructor, and that is outside this state. The counter is read where a
    function that opened a connection is left, and at the end of runs in
    which every connection is closed by the script. *)
Record World : Type := mkWorld {
  table : list Row;
  open_connections : nat;
  stdout : list line
}.

(** A psycopg2 connection (autocommit off): the rows inserted in its open
    transaction. They reach the table with [commit]; a connection that is
    dropped before takes them with it. *)
Record connection : Type := mkConnection { pending : list Row }.

(** [requests.Response], the two fields the script reads. *)
Record Response : Type := mkResponse { status_code : nat; resp_text : string }.

(** Everything the script does not decide: what the server answers for a
    title (the URL is [BASE_URL] with the title number), what the XML parser
    makes of a text, and which database calls fail. [db_fault t k] says
    whether the [k]-th database call of the batch of title [t] raises:
    call [0] is [connect], call [i] is the [i]-th [execute], the call after
    the last [execute] is [commit]. [setup_fault] is the same for
    [setup_postgres]. Closing a cursor or a connection does not fail. *)
Record Env : Type := mkEnv {
  requests_get : nat -> result Response;
  fromstring : string -> result Element;
  setup_fault : nat -> bool;
  db_fault : nat -> nat -> bool
}.

(** Computations on the world that may raise. *)
Definition IO (A : Type) : Type := World -> result A * World.

Definition ret {A : Type} (a : A) : IO A := fun w => (Ok a, w).

Definition raise {A : Type} (e : exn) : IO A := fun w => (Raise e, w).

Definition io_bind {A B : Type} (m : IO A) (k : A -> IO B) : IO B :=
  fun w =>
    match m w with
    | (Ok a, w') => k a w'
    | (Raise e, w') => (Raise e, w')
    end.

(** A pure computation that may raise, inside [IO]. *)
Definition lift {A : Type} (r : result A) : IO A := fun w => (r, w).

(** [try: body except Exception as e: handler(e)] *)
Definition try_except {A : Type} (body : IO A) (handler : exn -> IO A) : IO A :=
  fun w =>
    match body w with
    | (Ok a, w') => (Ok a, w')
    | (Raise e, w') => handler e w'
    end.

Declare Scope io_scope.
Delimit Scope io_scope with io.
Notation "'let!' x := m 'in' k" := (io_bind m (fun x => k))
  (at level 10, x pattern, m at level 100, k at level 200) : io_scope.
Notation "m ;; k" := (io_bind m (fun _ => k))
  (at level 100, k at level 200, right associativity) : io_scope.

(** [for x in xs: body], with the loop variables threaded through. *)
Fixpoint for_each {A S : Type} (xs : list A) (s : S) (body : S -> A -> IO S) : IO S :=
  match xs with
  | [] => ret s
  | x :: xs' => (let! s' := body s x in for_each xs' s' body)%io
  end.

Definition print (l : line) : IO unit :=
  fun w => (Ok tt, mkWorld (table w) (open_connections w) (stdout w ++ [l])).

(** [psycopg2.connect] with the settings of [PG_CONN] *)
Definition connect (fails : bool) : IO connection :=
  fun w =>
    if fails then (Raise DatabaseError, w)
    else (Ok (mkConnection []),
          mkWorld (table w) (S (open_connections w)) (stdout w)).

(** [cur.execute(INSERT_SQL, row)] on a cursor of [conn] *)
Definition execute_insert (fails : bool) (conn : connection) (row : Row)
  : IO connection :=
  if fails then raise DatabaseError
  else ret (mkConnection (pending conn ++ [row])).

(** [cur.execute(CREATE_TABLE_SQL)]: the table is empty when it is made,
    and left as it is when it exists. *)
Definition execute_create (fails : bool) (conn : connection) : IO connection :=
  if fails then raise DatabaseError else ret conn.

(** [conn.commit()] *)
Definition commit (fails : bool) (conn : connection) : IO connection :=
  fun w =>
    if fails then (Raise DatabaseError, w)
    else (Ok (mkConnection []),
          mkWorld (table w ++ pending conn) (open_connections w) (stdout w)).

(** [cur.close(); conn.close()]: the one release the script itself
    performs. *)
Definition close (conn : connection) : IO unit :=
  fun w => (Ok tt, mkWorld (table w) (pred (open_connections w)) (stdout w)).

(** [TITLES = range(1, 51)] *)
Definition TITLES : list nat := seq 1 50.

(** Lines 94 to 126 of [parse_chapters_for_wordcount], run to the end of
    the generator as [list(...)] runs it: what is yielded for a parsed
    document. An exception in the body of the loop ends the generator and
    leaves [list(...)] by that exception. *)
Definition yield_chapters (root : Element) : IO (list (string * string * nat)) :=
  (* Find the title element first *)
  match ET.find_descendant root "DIV1" "TYPE" "TITLE" with
  | None => (print msg_no_title ;; ret [])%io
  | Some title_elem =>
      (* Look for chapters (DIV3 with TYPE="CHAPTER") within the title *)
      lift (collect chapter_tuple (List.filter is_chapter (ET.iter title_elem)))
  end.

(** [is_reserved] of [insert_rows] *)
Definition is_reserved (chapter_heading : string) : bool :=
  if PyStr.truthy chapter_heading
  then PyStr.contains "[Reserved]" chapter_heading
  else false.

(** [char_count] of [insert_rows] *)
Definition char_count (chapter_heading : string) : nat :=
  if PyStr.truthy chapter_heading then String.length chapter_heading else 0.

(** The values [insert_rows] writes for one tuple. *)
Definition row_of (title_number : nat) (t : string * string * nat) : Row :=
  let '(chapter_label, chapter_heading, wc) := t in
  mkRow title_number chapter_label chapter_heading wc
    (char_count chapter_heading) (is_reserved chapter_heading).

Section Script.

Variable env : Env.

Definition setup_postgres : IO unit :=
  (let! conn := connect (setup_fault env 0) in
   let! conn := execute_create (setup_fault env 1) conn in
   let! conn := commit (setup_fault env 2) conn in
   close conn)%io.

Definition fetch_title_xml (title_number : nat) : IO string :=
  (print (msg_downloading title_number) ;;
   let! resp := lift (requests_get env title_number) in
   if negb (status_code resp =? 200)%nat
   then raise (RuntimeError title_number (status_code resp))
   else ret (resp_text resp))%io.

Definition parse_chapters_for_wordcount (xml_text : string)
  : IO (list (string * string * nat)) :=
  (let! root := lift (fromstring env xml_text) in
   yield_chapters root)%io.

Definition insert_rows (title_number : nat) (rows : list (string * string * nat))
  : IO nat :=
  (let! conn := connect (db_fault env title_number 0) in
   let inserted := 0 in
   let! (conn, inserted) :=
     for_each rows (conn, inserted)
       (fun '(conn, inserted) t =>
          let! conn :=
            execute_insert (db_fault env title_number (S inserted)) conn
              (row_of title_number t) in
          ret (conn, inserted + 1)) in
   let! conn := commit (db_fault env title_number (S inserted)) conn in
   close conn ;;
   ret inserted)%io.

(** The three calls inside [try] in [main]. *)
Definition attempt (title : nat) : IO nat :=
  (let! xml_text := fetch_title_xml title in
   let! chapters := parse_chapters_for_wordcount xml_text in
   insert_rows title chapters)%io.

(** The body of the loop of [main] for one title. [time.sleep] changes
    nothing here. *)
Definition process_title (title : nat) : IO unit :=
  try_except
    (let! count := attempt title in
     print (msg_inserted title count))%io
    (fun e => print (msg_error title e)).

Definition main : IO unit :=
  (print msg_setup ;;
   setup_postgres ;;
   for_each TITLES tt (fun _ title => process_title title) ;;
   print msg_done)%io.

End Script.

(** The records the script computes for a title whose document parses to
    [root]: extraction, normalization and statistics, without the database. *)
Definition chapter_records (title_number : nat) (root : Element) : IO (list Row) :=
  (let! chapters := yield_chapters root in
   ret (map (row_of title_number) chapters))%io.

(** A world in which nothing has happened. *)
Definition fresh : World := mkWorld [] 0 [].

(** Writing documents down: an element from its attribute list. *)
Definition el (t : string) (a : list (string * string)) (tx tl : option string)
  (cs : list Element) : Element :=
  mkElement t (list_to_map a) tx tl cs.

(** The line feed. *)
Definition LF : ascii := "010"%char.

(** * Facts *)

(** ** Strings *)

Lemma append_empty_r (s : string) : s +:+ "" = s.
Proof. induction s as [|c s IH]; simpl; [reflexivity | f_equal; exact IH]. Qed.

Lemma append_assoc (a b c : string) : (a +:+ b) +:+ c = a +:+ (b +:+ c).
Proof. induction a as [|x a IH]; simpl; [reflexivity | f_equal; exact IH]. Qed.

Lemma isspace_space : PyStr.isspace " " = true.
Proof. reflexivity. Qed.

Lemma lstrip_head (s : string) (c : ascii) (r : string) :
  PyStr.lstrip s = String c r -> PyStr.isspace c = false.
Proof.
  induction s as [|d s IH]; simpl; [discriminate|].
  destruct (PyStr.isspace d) eqn:Hd; [exact IH|].
  intros H. injection H as <- _. exact Hd.
Qed.

(** A string that does not start with whitespace is its own [lstrip]. *)
Definition starts_clean (s : string) : Prop :=
  match s with
  | EmptyString => True
  | String c _ => PyStr.isspace c = false
  end.

Lemma lstrip_starts_clean (s : string) : starts_clean (PyStr.lstrip s).
Proof.
  destruct (PyStr.lstrip s) as [|c r] eqn:H; simpl; [exact I|].
  exact (lstrip_head _ _ _ H).
Qed.

Lemma lstrip_fixed (s : string) : starts_clean s -> PyStr.lstrip s = s.
Proof. destruct s as [|c r]; simpl; [reflexivity|]. now intros ->. Qed.

Lemma rstrip_prefix (s : string) : exists w, s = PyStr.rstrip s +:+ w.
Proof.
  induction s as [|c r [w IH]]; simpl; [now exists ""|].
  destruct (PyStr.rstrip r) as [|d x] eqn:Hr.
  - destruct (PyStr.isspace c).
    + now exists (String c r).
    + exists r. reflexivity.
  - exists w. simpl. now rewrite IH at 1.
Qed.

Lemma rstrip_starts_clean (s : string) : starts_clean s -> starts_clean (PyStr.rstrip s).
Proof.
  destruct s as [|c r]; simpl; [easy|]. intros Hc.
  destruct (PyStr.rstrip r); simpl; [rewrite Hc; exact Hc | exact Hc].
Qed.

Lemma rstrip_idempotent (s : string) : PyStr.rstrip (PyStr.rstrip s) = PyStr.rstrip s.
Proof.
  induction s as [|c r IH]; simpl; [reflexivity|].
  destruct (PyStr.rstrip r) as [|d x] eqn:Hr.
  - destruct (PyStr.isspace c) eqn:Hc; simpl; [reflexivity | now rewrite Hc].
  - change (PyStr.rstrip (String c (String d x))) with
      (match PyStr.rstrip (String d x) with
       | EmptyString => if PyStr.isspace c then EmptyString else String c EmptyString
       | r' => String c r'
       end).
    now rewrite IH.
Qed.

(** ** [re.sub], one step at a time *)

Lemma sub_empty (p : Re.pattern) (repl : string) : Re.sub p repl "" = "".
Proof. now simp sub. Qed.

Lemma sub_match (p : Re.pattern) (repl : string) (c : ascii) (r rest : string) :
  Re.match_at p (String c r) = Some rest ->
  Re.sub p repl (String c r) = repl +:+ Re.sub p repl rest.
Proof.
  intros H. rewrite Re.sub_equation_2. unfold inspect.
  enough (G : forall o (e : Re.match_at p (String c r) = o), o = Some rest ->
            Re.sub_unfold_clause_2 p repl c r (exist _ o e)
            = repl +:+ Re.sub p repl rest) by (apply G; exact H).
  intros o e ->. apply Re.sub_clause_2_equation_1.
Qed.

Lemma sub_no_match (p : Re.pattern) (repl : string) (c : ascii) (r : string) :
  Re.match_at p (String c r) = None ->
  Re.sub p repl (String c r) = String c (Re.sub p repl r).
Proof.
  intros H. rewrite Re.sub_equation_2. unfold inspect.
  enough (G : forall o (e : Re.match_at p (String c r) = o), o = None ->
            Re.sub_unfold_clause_2 p repl c r (exist _ o e)
            = String c (Re.sub p repl r)) by (apply G; exact H).
  intros o e ->. apply Re.sub_clause_2_equation_2.
Qed.

(** Induction on the length of a string, for functions that jump ahead. *)
Lemma string_length_ind (P : string -> Prop) :
  (forall s, (forall t, String.length t < String.length s -> P t) -> P s) ->
  forall s, P s.
Proof.
  intros step s. remember (String.length s) as n eqn:Hn.
  revert s Hn. induction n as [n IH] using lt_wf_ind.
  intros s ->. apply step. intros t Ht. exact (IH _ Ht t eq_refl).
Qed.

(** A pattern that matches nowhere in [s] leaves it as it is. *)
Fixpoint matches_nowhere (p : Re.pattern) (s : string) : Prop :=
  match s with
  | EmptyString => True
  | String c r => Re.match_at p s = None /\ matches_nowhere p r
  end.

Lemma sub_matches_nowhere (p : Re.pattern) (repl s : string) :
  matches_nowhere p s -> Re.sub p repl s = s.
Proof.
  induction s as [|c r IH]; simpl; [intros _; apply sub_empty|].
  intros [H Hr]. rewrite (sub_no_match p repl c r H). now rewrite IH.
Qed.

Lemma matches_nowhere_suffix (p : Re.pattern) (a b : string) :
  matches_nowhere p (a +:+ b) -> matches_nowhere p b.
Proof. induction a as [|c a IH]; simpl; [easy|]. intros [_ H]. auto. Qed.

Lemma matches_nowhere_lstrip (p : Re.pattern) (s : string) :
  matches_nowhere p s -> matches_nowhere p (PyStr.lstrip s).
Proof.
  induction s as [|c r IH]; simpl; [easy|].
  intros [H Hr]. destruct (PyStr.isspace c); [auto | now split].
Qed.

(** ** Tags: where [<[^>]+>] matches *)

(** What may follow a [<] that opens no tag: a [>] at once, or no [>] at
    all. *)
Definition closed_after (r : string) : Prop :=
  (exists x, r = String ">" x) \/ Re.after_gt r = None.

Lemma tag_match_none_iff (c : ascii) (r : string) :
  Re.tag_match (String c r) = None <-> c <> "<"%char \/ closed_after r.
Proof.
  unfold closed_after. destruct r as [|d x]; simpl.
  - split; [intros _; right; right; reflexivity | reflexivity].
  - destruct (Ascii.eqb_spec c "<") as [->|Hc]; simpl.
    + destruct (Ascii.eqb_spec d ">") as [->|Hd]; simpl.
      * split; [intros _; right; left; now exists x | reflexivity].
      * split; [intros H; right; right; exact H|].
        intros [H|[[y H]|H]]; [congruence | congruence | exact H].
    + split; [intros _; now left | reflexivity].
Qed.

Lemma after_gt_app_none (a b : string) :
  Re.after_gt (a +:+ b) = None -> Re.after_gt a = None.
Proof.
  induction a as [|c a IH]; simpl; [reflexivity|].
  destruct (Ascii.eqb c ">"); [discriminate | exact IH].
Qed.

Lemma after_gt_lstrip (s : string) :
  Re.after_gt s = None -> Re.after_gt (PyStr.lstrip s) = None.
Proof.
  induction s as [|c r IH]; simpl; [reflexivity|].
  destruct (Ascii.eqb c ">") eqn:Hc; [discriminate|].
  intros H. destruct (PyStr.isspace c); [auto|]. simpl. now rewrite Hc.
Qed.

Lemma no_gt_matches_nowhere (s : string) :
  Re.after_gt s = None -> matches_nowhere Re.TAG s.
Proof.
  induction s as [|c r IH]; simpl; [easy|].
  destruct (Ascii.eqb c ">") eqn:Hc; [discriminate|].
  intros H. split; [|auto].
  destruct r as [|d x]; [reflexivity|].
  simpl in H. destruct (Ascii.eqb d ">"); [discriminate|].
  destruct (Ascii.eqb c "<" && negb false); [exact H | reflexivity].
Qed.

Lemma closed_after_sub_tag (r : string) :
  closed_after r -> closed_after (Re.sub Re.TAG " " r).
Proof.
  intros [[x ->]|H].
  - left. exists (Re.sub Re.TAG " " x). apply sub_no_match.
    apply tag_match_none_iff. left. discriminate.
  - right. rewrite sub_matches_nowhere; [exact H|].
    now apply no_gt_matches_nowhere.
Qed.

(** After [re.sub(r"<[^>]+>", " ", s)] the pattern matches nowhere. *)
Lemma sub_tag_matches_nowhere (s : string) :
  matches_nowhere Re.TAG (Re.sub Re.TAG " " s).
Proof.
  induction s as [s IH] using string_length_ind.
  destruct s as [|c r]; [now rewrite sub_empty|].
  destruct (Re.match_at Re.TAG (String c r)) as [rest|] eqn:Hm.
  - rewrite (sub_match _ _ _ _ _ Hm).
    change (" " +:+ Re.sub Re.TAG " " rest) with (String " " (Re.sub Re.TAG " " rest)).
    split.
    + apply tag_match_none_iff. left. discriminate.
    + apply IH. exact (Re.match_shrinks _ _ _ Hm).
  - rewrite (sub_no_match _ _ _ _ Hm). split.
    + apply tag_match_none_iff. apply tag_match_none_iff in Hm.
      destruct Hm as [Hc|Hr]; [now left | right; now apply closed_after_sub_tag].
    + apply IH. simpl. lia.
Qed.

(** ** Whitespace: what [re.sub(r"\s+", " ", s).strip()] leaves *)

Lemma sub_spaces_space (c : ascii) (r : string) :
  PyStr.isspace c = true ->
  Re.sub Re.SPACES " " (String c r)
  = String " " (Re.sub Re.SPACES " " (PyStr.lstrip r)).
Proof.
  intros Hc. rewrite (sub_match Re.SPACES " " c r (PyStr.lstrip r)); [reflexivity|].
  simpl. now rewrite Hc.
Qed.

Lemma sub_spaces_other (c : ascii) (r : string) :
  PyStr.isspace c = false ->
  Re.sub Re.SPACES " " (String c r) = String c (Re.sub Re.SPACES " " r).
Proof.
  intros Hc. apply (sub_no_match Re.SPACES). simpl. now rewrite Hc.
Qed.

Lemma after_gt_sub_spaces (s : string) :
  Re.after_gt s = None -> Re.after_gt (Re.sub Re.SPACES " " s) = None.
Proof.
  induction s as [s IH] using string_length_ind.
  destruct s as [|c r]; [now rewrite sub_empty|].
  simpl. destruct (Ascii.eqb c ">") eqn:Hc; [discriminate|]. intros H.
  destruct (PyStr.isspace c) eqn:Hs.
  - rewrite (sub_spaces_space _ _ Hs). simpl. apply IH.
    + pose proof (PyStr.lstrip_length r). simpl. lia.
    + now apply after_gt_lstrip.
  - rewrite (sub_spaces_other _ _ Hs). simpl. rewrite Hc. apply IH; [simpl; lia | exact H].
Qed.

Lemma closed_after_sub_spaces (r : string) :
  closed_after r -> closed_after (Re.sub Re.SPACES " " r).
Proof.
  intros [[x ->]|H].
  - left. exists (Re.sub Re.SPACES " " x). now apply sub_spaces_other.
  - right. now apply after_gt_sub_spaces.
Qed.

Lemma sub_spaces_keeps_tag_free (s : string) :
  matches_nowhere Re.TAG s -> matches_nowhere Re.TAG (Re.sub Re.SPACES " " s).
Proof.
  induction s as [s IH] using string_length_ind.
  destruct s as [|c r]; [now rewrite sub_empty|].
  intros [Hm Hr]. destruct (PyStr.isspace c) eqn:Hs.
  - rewrite (sub_spaces_space _ _ Hs). split.
    + apply tag_match_none_iff. left. discriminate.
    + apply IH; [pose proof (PyStr.lstrip_length r); simpl; lia|].
      now apply matches_nowhere_lstrip.
  - rewrite (sub_spaces_other _ _ Hs). split.
    + apply tag_match_none_iff. apply tag_match_none_iff in Hm.
      destruct Hm as [Hc|Hc]; [now left | right; now apply closed_after_sub_spaces].
    + apply IH; [simpl; lia | exact Hr].
Qed.

Lemma tag_free_prefix (a b : string) :
  matches_nowhere Re.TAG (a +:+ b) -> matches_nowhere Re.TAG a.
Proof.
  induction a as [|c a IH]; simpl; [easy|].
  intros [Hm Hr]. split; [|auto].
  apply tag_match_none_iff. apply tag_match_none_iff in Hm.
  destruct Hm as [Hc|[[x Hx]|Hg]]; [now left | |].
  - right. destruct a as [|d a']; [right; reflexivity|].
    left. simpl in Hx. injection Hx as -> _. now exists a'.
  - right. right. exact (after_gt_app_none _ _ Hg).
Qed.

Lemma strip_keeps_tag_free (s : string) :
  matches_nowhere Re.TAG s -> matches_nowhere Re.TAG (PyStr.strip s).
Proof.
  intros H. unfold PyStr.strip.
  apply matches_nowhere_lstrip in H.
  destruct (rstrip_prefix (PyStr.lstrip s)) as [w Hw].
  rewrite Hw in H. exact (tag_free_prefix _ _ H).
Qed.

(** Every whitespace character is one space, with no whitespace behind it. *)
Fixpoint collapsed (s : string) : Prop :=
  match s with
  | EmptyString => True
  | String c r =>
      (PyStr.isspace c = true -> c = " "%char /\ starts_clean r) /\ collapsed r
  end.

Lemma collapsed_fixed (s : string) : collapsed s -> Re.sub Re.SPACES " " s = s.
Proof.
  induction s as [|c r IH]; simpl; [intros _; apply sub_empty|].
  intros [Hc Hr]. destruct (PyStr.isspace c) eqn:Hs.
  - destruct (Hc eq_refl) as [-> Hclean].
    rewrite (sub_spaces_space _ _ Hs), (lstrip_fixed _ Hclean). now rewrite IH.
  - rewrite (sub_spaces_other _ _ Hs). now rewrite IH.
Qed.

Lemma sub_spaces_starts_clean (s : string) :
  starts_clean s -> starts_clean (Re.sub Re.SPACES " " s).
Proof.
  destruct s as [|c r]; simpl; [now rewrite sub_empty|].
  intros Hc. now rewrite (sub_spaces_other _ _ Hc).
Qed.

Lemma sub_spaces_collapsed (s : string) : collapsed (Re.sub Re.SPACES " " s).
Proof.
  induction s as [s IH] using string_length_ind.
  destruct s as [|c r]; [now rewrite sub_empty|].
  destruct (PyStr.isspace c) eqn:Hs.
  - rewrite (sub_spaces_space _ _ Hs). split.
    + intros _. split; [reflexivity|].
      apply sub_spaces_starts_clean, lstrip_starts_clean.
    + apply IH. pose proof (PyStr.lstrip_length r). simpl. lia.
  - rewrite (sub_spaces_other _ _ Hs). split; [congruence|].
    apply IH. simpl. lia.
Qed.

Lemma collapsed_lstrip (s : string) : collapsed s -> collapsed (PyStr.lstrip s).
Proof.
  induction s as [|c r IH]; simpl; [easy|].
  intros [Hc Hr]. destruct (PyStr.isspace c) eqn:Hs; [auto|].
  split; [intros H; congruence | exact Hr].
Qed.

Lemma collapsed_prefix (a b : string) : collapsed (a +:+ b) -> collapsed a.
Proof.
  induction a as [|c a IH]; simpl; [easy|].
  intros [Hc Hr]. split; [|auto].
  intros Hs. destruct (Hc Hs) as [-> Hclean]. split; [reflexivity|].
  destruct a; [exact I | exact Hclean].
Qed.

(** The whitespace step of [clean_text]. *)
Definition normalize_spaces (s : string) : string :=
  PyStr.strip (Re.sub Re.SPACES " " s).

Lemma normalize_spaces_collapsed (s : string) : collapsed (normalize_spaces s).
Proof.
  unfold normalize_spaces, PyStr.strip.
  pose proof (collapsed_lstrip _ (sub_spaces_collapsed s)) as H.
  destruct (rstrip_prefix (PyStr.lstrip (Re.sub Re.SPACES " " s))) as [w Hw].
  rewrite Hw in H. exact (collapsed_prefix _ _ H).
Qed.

Lemma normalize_spaces_idempotent (s : string) :
  normalize_spaces (normalize_spaces s) = normalize_spaces s.
Proof.
  unfold normalize_spaces at 1.
  rewrite (collapsed_fixed _ (normalize_spaces_collapsed s)).
  unfold normalize_spaces, PyStr.strip.
  rewrite (lstrip_fixed (PyStr.rstrip _)).
  - apply rstrip_idempotent.
  - apply rstrip_starts_clean, lstrip_starts_clean.
Qed.

(** C10. [clean_text] is idempotent: for every string [s], cleaning the
    cleaned text changes nothing, [clean_text(clean_text(s)) == clean_text(s)].
    The first pass leaves no [<...>] fragment and only single inner spaces;
    the second pass finds nothing to replace and nothing to trim. *)
Theorem clean_text_idempotent (s : string) :
  clean_text (clean_text s) = clean_text s.
Proof.
  unfold clean_text. fold (normalize_spaces (Re.sub Re.TAG " " s)).
  set (u := normalize_spaces (Re.sub Re.TAG " " s)).
  assert (Hu : matches_nowhere Re.TAG u).
  { apply strip_keeps_tag_free, sub_spaces_keeps_tag_free, sub_tag_matches_nowhere. }
  rewrite (sub_matches_nowhere _ _ _ Hu).
  apply normalize_spaces_idempotent.
Qed.

(** ** [split], one word at a time *)

Lemma split_unfold (s : string) :
  PyStr.split s =
  match PyStr.lstrip s with
  | EmptyString => []
  | String c r =>
      String c (fst (PyStr.span_word r)) :: PyStr.split (snd (PyStr.span_word r))
  end.
Proof.
  rewrite PyStr.split_equation_1. unfold inspect.
  enough (G : forall o (e : PyStr.lstrip s = o),
            PyStr.split_unfold_clause_1 s (exist _ o e) =
            match o with
            | EmptyString => []
            | String c r =>
                String c (fst (PyStr.span_word r))
                :: PyStr.split (snd (PyStr.span_word r))
            end) by apply G.
  intros [|c r] e.
  - apply PyStr.split_clause_1_equation_1.
  - apply PyStr.split_clause_1_equation_2.
Qed.

Lemma split_empty : PyStr.split "" = [].
Proof. now rewrite split_unfold. Qed.

Lemma split_space (c : ascii) (r : string) :
  PyStr.isspace c = true -> PyStr.split (String c r) = PyStr.split r.
Proof.
  intros Hc. rewrite (split_unfold (String c r)), (split_unfold r).
  simpl. now rewrite Hc.
Qed.

Lemma split_word (c : ascii) (r : string) :
  PyStr.isspace c = false ->
  PyStr.split (String c r)
  = String c (fst (PyStr.span_word r)) :: PyStr.split (snd (PyStr.span_word r)).
Proof. intros Hc. rewrite split_unfold. simpl. now rewrite Hc. Qed.

(** What follows the first word starts with whitespace, if it starts. *)
Lemma span_word_rest (s : string) :
  match snd (PyStr.span_word s) with
  | EmptyString => True
  | String d _ => PyStr.isspace d = true
  end.
Proof.
  induction s as [|c r IH]; simpl; [exact I|].
  destruct (PyStr.isspace c) eqn:Hc; simpl; [exact Hc | exact IH].
Qed.

Lemma span_word_append (s : string) :
  s = fst (PyStr.span_word s) +:+ snd (PyStr.span_word s).
Proof.
  induction s as [|c r IH]; simpl; [reflexivity|].
  destruct (PyStr.isspace c); simpl; [reflexivity | now rewrite <- IH].
Qed.

(** ** Tokens, as the specification words them *)

(** Splitting at every whitespace character: the pieces between two
    neighbouring whitespace characters, before the first and behind the
    last, empty ones included. *)
Fixpoint fields (s : string) : list string :=
  match s with
  | EmptyString => [EmptyString]
  | String c r =>
      if PyStr.isspace c then EmptyString :: fields r
      else match fields r with
           | f :: fs => String c f :: fs
           | [] => [String c EmptyString]
           end
  end.

(** The non-empty whitespace-delimited tokens. *)
Definition tokens (s : string) : list string := List.filter PyStr.truthy (fields s).

Lemma fields_span_word (s : string) :
  exists tl, fields (snd (PyStr.span_word s)) = EmptyString :: tl
             /\ fields s = fst (PyStr.span_word s) :: tl.
Proof.
  induction s as [|c r (tl & Hrest & Hr)]; simpl.
  - now exists [].
  - destruct (PyStr.isspace c) eqn:Hc; simpl.
    + rewrite Hc. now exists (fields r).
    + exists tl. rewrite Hr. now split.
Qed.

Lemma split_tokens (s : string) : PyStr.split s = tokens s.
Proof.
  unfold tokens. induction s as [s IH] using string_length_ind.
  destruct s as [|c r]; [now rewrite split_empty|].
  destruct (PyStr.isspace c) eqn:Hc.
  - rewrite (split_space _ _ Hc). simpl. rewrite Hc. simpl.
    apply IH. simpl. lia.
  - rewrite (split_word _ _ Hc). simpl. rewrite Hc.
    destruct (fields_span_word r) as (tl & Hrest & Hr).
    rewrite Hr. simpl. f_equal.
    rewrite IH; [now rewrite Hrest|].
    pose proof (PyStr.span_word_length r). simpl. lia.
Qed.

(** C8. For every text, [word_count] is the number of non-empty
    whitespace-delimited tokens (the pieces between whitespace characters,
    empty pieces left out); the empty string gives 0; and the raw text
    "A B  C\n D" is normalized by [clean_text] to "A B C D", which has
    4 words. *)
Theorem word_count_counts_tokens :
  (forall text, word_count text = List.length (tokens text))
  /\ word_count "" = 0
  /\ clean_text ("A B  C" +:+ String LF " D") = "A B C D"
  /\ word_count (clean_text ("A B  C" +:+ String LF " D")) = 4.
Proof.
  split; [|split; [|split]]; try (vm_compute; reflexivity).
  intros text. unfold word_count.
  destruct text as [|c r]; [reflexivity|]. simpl. now rewrite split_tokens.
Qed.

(** ** Substrings *)

Lemma prefix_iff (n h : string) :
  String.prefix n h = true <-> exists post, h = n +:+ post.
Proof.
  revert h. induction n as [|a n IH]; intros h.
  - destruct h; simpl; (split; [intros _; eexists; reflexivity | reflexivity]).
  - destruct h as [|b h]; simpl.
    + split; [discriminate | intros [post H]; discriminate].
    + destruct (ascii_dec a b) as [->|Hab].
      * rewrite IH. split; intros [post H]; exists post; congruence.
      * split; [discriminate | intros [post H]; congruence].
Qed.

Lemma contains_iff (n h : string) :
  PyStr.contains n h = true <-> exists pre post, h = pre +:+ n +:+ post.
Proof.
  induction h as [|b h IH].
  - change (PyStr.contains n "") with (String.prefix n "" || false).
    rewrite orb_false_r, prefix_iff. split.
    + intros [post H]. now exists "", post.
    + intros (pre & post & H). destruct pre; [now exists post | discriminate].
  - change (PyStr.contains n (String b h))
      with (String.prefix n (String b h) || PyStr.contains n h).
    rewrite orb_true_iff, prefix_iff, IH. split.
    + intros [[post H]|(pre & post & H)].
      * now exists "", post.
      * exists (String b pre), post. simpl. now rewrite H.
    + intros (pre & post & H). destruct pre as [|c pre].
      * left. now exists post.
      * right. exists pre, post. simpl in H. congruence.
Qed.

(** C9. For every heading string, the [is_reserved] value that
    [insert_rows] writes is true if and only if the heading contains the
    literal substring [[Reserved]] somewhere; the empty heading gives false,
    and so does a chapter without heading element, whose heading is the
    empty string. *)
Theorem is_reserved_iff_marker :
  (forall heading,
      is_reserved heading = true
      <-> exists pre post, heading = pre +:+ "[Reserved]" +:+ post)
  /\ is_reserved "" = false
  /\ (forall title label heading wc,
         col_is_reserved (row_of title (label, heading, wc)) = is_reserved heading)
  /\ (forall title chapter,
         ET.find chapter "HEAD" = None ->
         exists label wc,
           chapter_tuple chapter = Ok (label, "", wc)
           /\ col_is_reserved (row_of title (label, "", wc)) = false).
Proof.
  split; [|split; [reflexivity|split; [reflexivity|]]].
  - intros heading. unfold is_reserved. destruct heading as [|c r].
    + simpl. split; [discriminate|].
      intros (pre & post & H). destruct pre; discriminate.
    + cbn [PyStr.truthy]. apply contains_iff.
  - intros title chapter H. unfold chapter_tuple. rewrite H.
    eexists _, _. split; reflexivity.
Qed.

Lemma is_reserved_iff_marker_witness :
  is_reserved "Chapter II - [Reserved]" = true
  /\ exists label wc,
       chapter_tuple (el "DIV3" [] None None []) = Ok (label, "", wc)
       /\ col_is_reserved (row_of 1 (label, "", wc)) = false.
Proof.
  split.
  - apply (proj1 is_reserved_iff_marker). now exists "Chapter II - ", "".
  - apply (proj2 (proj2 (proj2 is_reserved_iff_marker))). reflexivity.
Defined.

(** ** Words of a normalized text *)

(** [" ".join(words)] *)
Definition unwords (words : list string) : string := String.concat " " words.

(** ["".join(parts)] *)
Definition join_all (parts : list string) : string :=
  fold_right String.append "" parts.

Fixpoint spaceless (s : string) : Prop :=
  match s with
  | EmptyString => True
  | String c r => PyStr.isspace c = false /\ spaceless r
  end.

Lemma span_word_spaceless (s : string) : spaceless (fst (PyStr.span_word s)).
Proof.
  induction s as [|c r IH]; simpl; [exact I|].
  destruct (PyStr.isspace c) eqn:Hc; simpl; [exact I | now split].
Qed.

Lemma rstrip_spaceless (s : string) : spaceless s -> PyStr.rstrip s = s.
Proof.
  induction s as [|c r IH]; simpl; [reflexivity|].
  intros [Hc Hr]. rewrite (IH Hr), Hc. now destruct r.
Qed.

Lemma rstrip_append (a b : string) :
  PyStr.rstrip (a +:+ b)
  = match PyStr.rstrip b with
    | EmptyString => PyStr.rstrip a
    | b' => a +:+ b'
    end.
Proof.
  induction a as [|c a IH]; simpl.
  - now destruct (PyStr.rstrip b).
  - rewrite IH. destruct (PyStr.rstrip b) as [|e b']; [reflexivity|].
    now destruct a.
Qed.

Lemma lstrip_idempotent (s : string) : PyStr.lstrip (PyStr.lstrip s) = PyStr.lstrip s.
Proof. apply lstrip_fixed, lstrip_starts_clean. Qed.

Lemma split_lstrip (s : string) : PyStr.split (PyStr.lstrip s) = PyStr.split s.
Proof.
  rewrite (split_unfold (PyStr.lstrip s)), (split_unfold s).
  now rewrite lstrip_idempotent.
Qed.

Lemma lstrip_sub_spaces (s : string) :
  PyStr.lstrip (Re.sub Re.SPACES " " s) = Re.sub Re.SPACES " " (PyStr.lstrip s).
Proof.
  destruct s as [|c r]; [now rewrite sub_empty|].
  destruct (PyStr.isspace c) eqn:Hc.
  - rewrite (sub_spaces_space _ _ Hc). simpl. rewrite Hc.
    apply lstrip_fixed, sub_spaces_starts_clean, lstrip_starts_clean.
  - rewrite (sub_spaces_other _ _ Hc). simpl. rewrite Hc.
    now rewrite (sub_spaces_other _ _ Hc).
Qed.

Lemma sub_spaces_span_word (s : string) :
  Re.sub Re.SPACES " " s
  = fst (PyStr.span_word s) +:+ Re.sub Re.SPACES " " (snd (PyStr.span_word s)).
Proof.
  induction s as [|c r IH]; simpl; [now rewrite sub_empty|].
  destruct (PyStr.isspace c) eqn:Hc; simpl; [reflexivity|].
  rewrite (sub_spaces_other _ _ Hc). now rewrite IH at 1.
Qed.

Lemma unwords_cons (w : string) (ws : list string) :
  unwords (w :: ws) = match ws with [] => w | _ :: _ => w +:+ " " +:+ unwords ws end.
Proof. now destruct ws. Qed.

Lemma rstrip_sub_spaces (s : string) :
  starts_clean s ->
  PyStr.rstrip (Re.sub Re.SPACES " " s) = unwords (PyStr.split s).
Proof.
  induction s as [s IH] using string_length_ind.
  destruct s as [|c r]; [now rewrite sub_empty, split_empty|].
  simpl. intros Hc. rewrite (split_word _ _ Hc), (sub_spaces_other _ _ Hc).
  rewrite sub_spaces_span_word.
  pose proof (span_word_rest r) as Hrest.
  pose proof (PyStr.span_word_length r) as Hlen.
  pose proof (span_word_spaceless r) as Hw.
  set (w := fst (PyStr.span_word r)) in *.
  destruct (snd (PyStr.span_word r)) as [|d x].
  - rewrite sub_empty, append_empty_r, split_empty. simpl.
    apply (rstrip_spaceless (String c w)). now split.
  - rewrite (sub_spaces_space _ _ Hrest), (split_space _ _ Hrest).
    change (String c (w +:+ String " " (Re.sub Re.SPACES " " (PyStr.lstrip x))))
      with (String c w +:+ String " " (Re.sub Re.SPACES " " (PyStr.lstrip x))).
    rewrite rstrip_append.
    change (PyStr.rstrip (String " " (Re.sub Re.SPACES " " (PyStr.lstrip x))))
      with (match PyStr.rstrip (Re.sub Re.SPACES " " (PyStr.lstrip x)) with
            | EmptyString => EmptyString
            | r' => String " " r'
            end).
    rewrite (IH (PyStr.lstrip x)).
    + rewrite split_lstrip, unwords_cons.
      rewrite (split_unfold x).
      destruct (PyStr.lstrip x) as [|c2 r2].
      * apply (rstrip_spaceless (String c w)). now split.
      * rewrite unwords_cons.
        destruct (PyStr.split (snd (PyStr.span_word r2))); reflexivity.
    + pose proof (PyStr.lstrip_length x). simpl in *. lia.
    + apply lstrip_starts_clean.
Qed.

(** The whitespace step gives the words, joined by single spaces. *)
Lemma normalize_spaces_unwords (s : string) :
  normalize_spaces s = unwords (PyStr.split s).
Proof.
  unfold normalize_spaces, PyStr.strip.
  rewrite lstrip_sub_spaces, rstrip_sub_spaces by apply lstrip_starts_clean.
  now rewrite split_lstrip.
Qed.

Lemma span_word_append_space (a b : string) :
  PyStr.span_word (a +:+ String " " b)
  = (fst (PyStr.span_word a), snd (PyStr.span_word a) +:+ String " " b).
Proof.
  induction a as [|c a IH]; simpl; [reflexivity|].
  destruct (PyStr.isspace c); simpl; [reflexivity | now rewrite IH].
Qed.

Lemma split_append_space (a b : string) :
  PyStr.split (a +:+ String " " b) = PyStr.split a ++ PyStr.split b.
Proof.
  induction a as [a IH] using string_length_ind.
  destruct a as [|c r]; simpl.
  - now rewrite (split_space " " b isspace_space), split_empty.
  - destruct (PyStr.isspace c) eqn:Hc.
    + rewrite !(split_space _ _ Hc). apply IH. simpl. lia.
    + rewrite !(split_word _ _ Hc), span_word_append_space. simpl.
      rewrite IH; [reflexivity|].
      pose proof (PyStr.span_word_length r). simpl. lia.
Qed.

(** ** Documents *)

(** Induction on a document, with the property for all children. *)
Lemma Element_forall_ind (P : Element -> Prop) :
  (forall t a tx tl cs, Forall P cs -> P (mkElement t a tx tl cs)) ->
  forall e, P e.
Proof.
  intros H. fix IH 1. intros [t a tx tl cs]. apply H.
  revert cs. fix IHcs 1. intros [|c cs]; constructor; [apply IH | apply IHcs].
Qed.

(** The text nodes of a subtree in document order: the text of the element,
    then for each child its own text nodes and its tail. The tail of the
    element itself belongs to its parent. *)
Definition text_node (o : option string) : list string :=
  match o with
  | Some t => [t]
  | None => []
  end.

Fixpoint text_pieces (e : Element) : list string :=
  text_node (text e)
  ++ flat_map (fun c => text_pieces c ++ text_node (tail c)) (children e).

(** The Text Normalizer: [clean_text(extract_text(subtree))]. *)
Definition normalize (subtree : Element) : string :=
  clean_text (extract_text subtree).

(** The Text Normalizer as the specification words it: all text nodes concatenated,
    whitespace collapsed and trimmed. *)
Definition normalize_by_concatenation (subtree : Element) : string :=
  normalize_spaces (join_all (text_pieces subtree)).

(** Every non-empty piece, each followed by one space. *)
Definition spaced (pieces : list string) : string :=
  join_all (map (fun p => p +:+ " ") (List.filter PyStr.truthy pieces)).

Lemma join_all_app (a b : list string) : join_all (a ++ b) = join_all a +:+ join_all b.
Proof.
  induction a as [|x a IH]; simpl; [reflexivity|].
  unfold join_all in *. simpl. now rewrite IH, append_assoc.
Qed.

Lemma spaced_app (a b : list string) : spaced (a ++ b) = spaced a +:+ spaced b.
Proof. unfold spaced. now rewrite List.filter_app, List.map_app, join_all_app. Qed.

Lemma spaced_text_node (o : option string) :
  spaced (text_node o)
  = match o with
    | Some t => if PyStr.truthy t then t +:+ " " else ""
    | None => ""
    end.
Proof.
  destruct o as [t|]; [|reflexivity]. unfold spaced. simpl.
  destruct (PyStr.truthy t); simpl; [apply append_empty_r | reflexivity].
Qed.

Lemma extract_text_unfold (e : Element) :
  extract_text e
  = fold_left
      (fun acc child =>
         let acc := acc +:+ extract_text child in
         match tail child with
         | Some t => if PyStr.truthy t then acc +:+ t +:+ " " else acc
         | None => acc
         end)
      (children e)
      (match text e with
       | Some t => if PyStr.truthy t then "" +:+ t +:+ " " else ""
       | None => ""
       end).
Proof. destruct e. reflexivity. Qed.

Lemma extract_text_pieces (e : Element) : extract_text e = spaced (text_pieces e).
Proof.
  induction e as [t a tx tl cs IH] using Element_forall_ind.
  rewrite extract_text_unfold. cbn [text children text_pieces].
  rewrite spaced_app, spaced_text_node.
  change ("" +:+ ?x) with x.
  generalize (match tx with
              | Some t0 => if PyStr.truthy t0 then t0 +:+ " " else ""
              | None => ""
              end) as acc.
  induction IH as [|c cs Hc _ IHcs]; intros acc; simpl.
  - now rewrite append_empty_r.
  - rewrite IHcs, !spaced_app, spaced_text_node, Hc.
    destruct (tail c) as [t0|]; [destruct (PyStr.truthy t0)|];
      now rewrite ?append_assoc, ?append_empty_r.
Qed.

Lemma spaced_cons (p : string) (l : list string) :
  spaced (p :: l) = if PyStr.truthy p then p +:+ String " " (spaced l) else spaced l.
Proof.
  unfold spaced. cbn [List.filter]. destruct (PyStr.truthy p); [|reflexivity].
  cbn [map join_all fold_right]. apply append_assoc.
Qed.

Lemma split_spaced (pieces : list string) :
  PyStr.split (spaced pieces) = flat_map PyStr.split pieces.
Proof.
  induction pieces as [|p l IH]; [now rewrite <- split_empty|].
  rewrite spaced_cons. cbn [flat_map]. destruct p as [|c r]; cbn [PyStr.truthy].
  - now rewrite split_empty.
  - now rewrite split_append_space, IH.
Qed.

(** No [<] in a string, so no tag. *)
Fixpoint lt_free (s : string) : Prop :=
  match s with
  | EmptyString => True
  | String c r => c <> "<"%char /\ lt_free r
  end.

Lemma lt_free_matches_nowhere (s : string) : lt_free s -> matches_nowhere Re.TAG s.
Proof.
  induction s as [|c r IH]; simpl; [easy|].
  intros [Hc Hr]. split; [|auto].
  apply (tag_match_none_iff c r). now left.
Qed.

Lemma lt_free_append (a b : string) : lt_free a -> lt_free b -> lt_free (a +:+ b).
Proof. induction a as [|c a IH]; simpl; [easy|]. intros [Hc Ha] Hb. auto. Qed.

Lemma contains_lt_free (s : string) : PyStr.contains "<" s = false -> lt_free s.
Proof.
  induction s as [|c r IH]; [easy|].
  change (PyStr.contains "<" (String c r))
    with (String.prefix "<" (String c r) || PyStr.contains "<" r).
  intros H. apply orb_false_iff in H as [Hp Hr]. split; [|auto].
  intros ->. simpl in Hp. now destruct r.
Qed.

Lemma lt_free_spaced (pieces : list string) :
  Forall (fun p => PyStr.contains "<" p = false) pieces -> lt_free (spaced pieces).
Proof.
  induction 1 as [|p l Hp _ IH]; [exact I|].
  rewrite spaced_cons. destruct (PyStr.truthy p); [|exact IH].
  apply lt_free_append; [now apply contains_lt_free|].
  split; [discriminate | exact IH].
Qed.

(** C4, as amended. For every subtree, the extracted text is its non-empty
    text nodes in document order (the text of each element, then for each
    child its own text nodes and its tail), every node once and every node
    followed by one space; the normalized text is the words of that text,
    with every [<...>] fragment replaced by a space first, joined by single
    spaces. When no text node contains [<], the normalized text is the
    words of all text nodes in document order, joined by single spaces: no
    text is dropped and no tail is inserted twice. A subtree without text
    nodes gives the empty string. The function is total: an absent text or
    tail raises nothing. *)
Theorem normalize_words_in_document_order (e : Element) :
  extract_text e = spaced (text_pieces e)
  /\ normalize e
     = unwords (PyStr.split (Re.sub Re.TAG " " (spaced (text_pieces e))))
  /\ (Forall (fun p => PyStr.contains "<" p = false) (text_pieces e) ->
      normalize e = unwords (flat_map PyStr.split (text_pieces e)))
  /\ (text_pieces e = [] -> normalize e = "").
Proof.
  assert (H1 := extract_text_pieces e).
  assert (H2 : normalize e
               = unwords (PyStr.split (Re.sub Re.TAG " " (spaced (text_pieces e))))).
  { unfold normalize, clean_text. rewrite H1. apply normalize_spaces_unwords. }
  split; [exact H1|]. split; [exact H2|]. split.
  - intros Hlt. rewrite H2, sub_matches_nowhere, split_spaced; [reflexivity|].
    now apply lt_free_matches_nowhere, lt_free_spaced.
  - intros Hnil. rewrite H2, Hnil. reflexivity.
Qed.

(** A paragraph with text before, inside and behind an inline element, no
    whitespace between them: [<P>foo<I>bar</I>baz</P>]. *)
Definition mixed_paragraph : Element :=
  el "P" [] (Some "foo") None [ el "I" [] (Some "bar") (Some "baz") [] ].

(** A paragraph whose text holds an escaped tag: [<P>a &lt;b&gt; c</P>]. *)
Definition escaped_paragraph : Element :=
  el "P" [] (Some "a <b> c") None [].

(** C4 as stated fails: text nodes that touch are separated by a space,
    and text between angle brackets is dropped, so the result is not the
    concatenation of the text nodes with its whitespace collapsed. *)
Lemma normalize_differs_from_concatenation :
  normalize mixed_paragraph <> normalize_by_concatenation mixed_paragraph
  /\ normalize escaped_paragraph <> normalize_by_concatenation escaped_paragraph.
Proof. split; vm_compute; discriminate. Qed.

Example normalize_mixed_paragraph :
  normalize mixed_paragraph = "foo bar baz"
  /\ normalize_by_concatenation mixed_paragraph = "foobarbaz".
Proof. split; vm_compute; reflexivity. Qed.

Example normalize_escaped_paragraph :
  normalize escaped_paragraph = "a c"
  /\ normalize_by_concatenation escaped_paragraph = "a <b> c".
Proof. split; vm_compute; reflexivity. Qed.

Lemma normalize_words_in_document_order_witness :
  normalize mixed_paragraph = "foo bar baz".
Proof.
  destruct (normalize_words_in_document_order mixed_paragraph) as (_ & _ & H & _).
  rewrite H; [reflexivity|].
  repeat constructor.
Defined.

(** ** The end-to-end scenario *)

(** A root with one TITLE division that holds two CHAPTER divisions. *)
Definition minimal_title_document : Element :=
  el "ECFR" [] None None
    [ el "DIV1" [("N", "1"); ("TYPE", "TITLE")] None None
        [ el "DIV3" [("N", "I"); ("TYPE", "CHAPTER")] None None
            [ el "HEAD" [] (Some "Chapter I - General") None [];
              el "P" [] (Some "This part applies.") None [] ];
          el "DIV3" [("N", "II"); ("TYPE", "CHAPTER")] None None
            [ el "HEAD" [] (Some "Chapter II - [Reserved]") None [] ] ] ].

(** C1, as amended. For the minimal title document (a root holding one
    TITLE division with two CHAPTER divisions: "I", heading
    "Chapter I - General", body "This part applies."; "II", heading
    "Chapter II - [Reserved]", no body) the pipeline yields exactly two
    records, for every title number: (title, "I", "Chapter I - General",
    word_count 7, character_count 19, not reserved) and (title, "II",
    "Chapter II - [Reserved]", word_count 4, character_count 23, reserved).
    The word counts include the heading text. *)
Theorem minimal_title_document_records (title : nat) (w : World) :
  chapter_records title minimal_title_document w
  = (Ok [ mkRow title "I" "Chapter I - General" 7 19 false;
          mkRow title "II" "Chapter II - [Reserved]" 4 23 true ], w).
Proof. vm_compute. reflexivity. Qed.

(** C1 as stated fails: the records are not those with a character count
    of 20 for chapter I and a word count of 3 for chapter II. *)
Lemma claimed_records_differ :
  chapter_records 1 minimal_title_document fresh
  <> (Ok [ mkRow 1 "I" "Chapter I - General" 7 20 false;
           mkRow 1 "II" "Chapter II - [Reserved]" 3 23 true ], fresh).
Proof. vm_compute. discriminate. Qed.

(** The same with the body text of chapter I behind the heading, not in a
    paragraph of its own. *)
Example minimal_title_document_tail_text (title : nat) (w : World) :
  chapter_records title
    (el "ECFR" [] None None
       [ el "DIV1" [("TYPE", "TITLE")] None None
           [ el "DIV3" [("N", "I"); ("TYPE", "CHAPTER")] None None
               [ el "HEAD" [] (Some "Chapter I - General")
                   (Some "This part applies.") [] ];
             el "DIV3" [("N", "II"); ("TYPE", "CHAPTER")] None None
               [ el "HEAD" [] (Some "Chapter II - [Reserved]") None [] ] ] ]) w
  = (Ok [ mkRow title "I" "Chapter I - General" 7 19 false;
          mkRow title "II" "Chapter II - [Reserved]" 4 23 true ], w).
Proof. vm_compute. reflexivity. Qed.

(** A document whose root is the TITLE division itself has no TITLE
    division below the root: nothing is yielded. *)
Example title_as_root_yields_nothing (title : nat) (w : World) :
  chapter_records title
    (el "DIV1" [("TYPE", "TITLE")] None None
       [ el "DIV3" [("N", "I"); ("TYPE", "CHAPTER")] None None
           [ el "HEAD" [] (Some "Chapter I - General") None [] ] ]) w
  = (Ok [], mkWorld (table w) (open_connections w) (stdout w ++ [msg_no_title])).
Proof. vm_compute. reflexivity. Qed.

(** ** Headings *)

(** A chapter without a heading element. *)
Lemma chapter_without_heading (chapter : Element) :
  ET.find chapter "HEAD" = None ->
  chapter_tuple chapter
  = Ok (default "" (attrib chapter !! "N"), "", word_count (normalize chapter))
  /\ char_count "" = 0.
Proof. intros H. unfold chapter_tuple. rewrite H. now split. Qed.

(** A chapter whose heading element has text. *)
Lemma chapter_with_heading_text (chapter h : Element) (t : string) :
  ET.find chapter "HEAD" = Some h -> text h = Some t ->
  chapter_tuple chapter
  = Ok (default "" (attrib chapter !! "N"), PyStr.strip t,
        word_count (normalize chapter)).
Proof. intros H Ht. unfold chapter_tuple. rewrite H, Ht. reflexivity. Qed.

(** A chapter whose heading element is there and has no text:
    [<DIV3 N="I" TYPE="CHAPTER"><HEAD/><P>Text.</P></DIV3>]. *)
Definition chapter_with_empty_heading : Element :=
  el "DIV3" [("N", "I"); ("TYPE", "CHAPTER")] None None
    [ el "HEAD" [] None None [];
      el "P" [] (Some "Text.") None [] ].

(** C2. The specification wants the empty heading and the count 0 for a heading
    element that is there and has no text. The code raises [AttributeError]
    there ([None] has no [strip]): for the chapter itself, and so for the
    whole document that holds it. *)
Theorem empty_heading_element_raises :
  chapter_tuple chapter_with_empty_heading = Raise AttributeError
  /\ (forall w,
        yield_chapters
          (el "ECFR" [] None None
             [ el "DIV1" [("TYPE", "TITLE")] None None [chapter_with_empty_heading] ]) w
        = (Raise AttributeError, w)).
Proof. split; [|intros w]; vm_compute; reflexivity. Qed.

(** ** Positions in a document *)

(** The place of an element below a given element: the child indices on the
    way down. *)
Definition path : Type := list nat.

Section Numbered.
Context {A : Type} (f : nat -> Element -> list A).

(** [f i c] for every child [c], with its index [i] counted from [i0]. *)
Fixpoint numbered (i0 : nat) (cs : list Element) : list A :=
  match cs with
  | [] => []
  | c :: cs' => f i0 c ++ numbered (S i0) cs'
  end.

End Numbered.

(** [element.iter()] with the place of every element. *)
Fixpoint positions (e : Element) : list (path * Element) :=
  ([], e)
  :: numbered (fun i c => map (fun pe => (i :: fst pe, snd pe)) (positions c))
       0 (children e).

(** The places of the elements for which the generator yields. *)
Definition chapter_positions (title_elem : Element) : list path :=
  map fst (List.filter (fun pe => is_chapter (snd pe)) (positions title_elem)).



(** The subtree holds a chapter element. *)
Fixpoint has_chapter (e : Element) : bool :=
  is_chapter e || existsb has_chapter (children e).

(** The schema: no chapter element inside a chapter element. *)
Fixpoint chapters_flat (e : Element) : bool :=
  if is_chapter e
  then negb (existsb has_chapter (children e))
  else forallb chapters_flat (children e).

Lemma positions_iter (e : Element) : map snd (positions e) = ET.iter e.
Proof.
  induction e as [t a tx tl cs IH] using Element_forall_ind.
  simpl. f_equal. generalize 0.
  induction IH as [|c cs Hc _ IHcs]; intros k; simpl; [reflexivity|].
  rewrite List.map_app, List.map_map, IHcs. f_equal.
  rewrite <- Hc. apply List.map_ext. reflexivity.
Qed.

(** The generator visits the elements at [chapter_positions], in order. *)
Lemma chapter_positions_elements (e : Element) :
  map snd (List.filter (fun pe => is_chapter (snd pe)) (positions e))
  = List.filter is_chapter (ET.iter e).
Proof.
  rewrite <- positions_iter.
  induction (positions e) as [|pe l IH]; simpl; [reflexivity|].
  destruct (is_chapter (snd pe)); simpl; now rewrite IH.
Qed.

Lemma chapter_positions_shift (i : nat) (l : list (path * Element)) :
  map fst (List.filter (fun pe => is_chapter (snd pe))
             (map (fun pe => (i :: fst pe, snd pe)) l))
  = map (cons i) (map fst (List.filter (fun pe => is_chapter (snd pe)) l)).
Proof.
  induction l as [|[p x] l IH]; [reflexivity|].
  cbn [map List.filter fst snd].
  destruct (is_chapter x); cbn [map fst]; now rewrite IH.
Qed.

Lemma chapter_positions_unfold (e : Element) :
  chapter_positions e
  = (if is_chapter e then [[]] else [])
    ++ numbered (fun i c => map (cons i) (chapter_positions c)) 0 (children e).
Proof.
  destruct e as [t a tx tl cs]. unfold chapter_positions at 1.
  cbn [positions children List.filter snd].
  assert (G : forall k,
             map fst (List.filter (fun pe => is_chapter (snd pe))
                        (numbered (fun i c => map (fun pe => (i :: fst pe, snd pe))
                                                 (positions c)) k cs))
             = numbered (fun i c => map (cons i) (chapter_positions c)) k cs).
  { induction cs as [|c cs IH]; intros k; simpl; [reflexivity|].
    now rewrite List.filter_app, List.map_app, chapter_positions_shift, IH. }
  destruct (is_chapter (mkElement t a tx tl cs)); simpl; now rewrite G.
Qed.

Lemma in_numbered (G : Element -> list path) (k : nat) (cs : list Element) (q : path) :
  In q (numbered (fun i c => map (cons i) (G c)) k cs)
  <-> exists j c q', nth_error cs j = Some c /\ q = (k + j) :: q' /\ In q' (G c).
Proof.
  revert k. induction cs as [|c cs IH]; intros k; simpl.
  - split; [easy|]. intros (j & c & q' & H & _). now destruct j.
  - rewrite in_app_iff, in_map_iff, IH. split.
    + intros [(q' & <- & Hq')|(j & c' & q' & Hn & -> & Hq')].
      * exists 0, c, q'. rewrite Nat.add_0_r. now split.
      * exists (S j), c', q'. split; [exact Hn|]. split; [f_equal; lia | exact Hq'].
    + intros (j & c' & q' & Hn & -> & Hq'). destruct j as [|j]; simpl in Hn.
      * injection Hn as <-. left. exists q'. rewrite Nat.add_0_r. now split.
      * right. exists j, c', q'. split; [exact Hn|]. split; [f_equal; lia | exact Hq'].
Qed.

Lemma in_chapter_positions (e : Element) (q : path) :
  In q (chapter_positions e)
  <-> (is_chapter e = true /\ q = [])
      \/ exists j c q', nth_error (children e) j = Some c /\ q = j :: q'
                        /\ In q' (chapter_positions c).
Proof.
  rewrite chapter_positions_unfold, in_app_iff, in_numbered. simpl.
  destruct (is_chapter e); simpl; split.
  - intros [[<-|[]]|H]; [left; now split | right; exact H].
  - intros [[_ ->]|H]; [left; now left | right; exact H].
  - intros [[]|H]. right. exact H.
  - intros [[H _]|H]; [discriminate | right; exact H].
Qed.


Lemma no_chapter_no_position (e : Element) :
  has_chapter e = false -> chapter_positions e = [].
Proof.
  induction e as [t a tx tl cs IH] using Element_forall_ind.
  cbn [has_chapter children]. intros H. apply orb_false_iff in H as [He Hcs].
  destruct (chapter_positions (mkElement t a tx tl cs)) as [|q l] eqn:Hq; [reflexivity|].
  exfalso. assert (Hin : In q (chapter_positions (mkElement t a tx tl cs)))
    by (rewrite Hq; now left).
  apply in_chapter_positions in Hin as [[Hch _]|(j & c & q' & Hn & _ & Hq')].
  - congruence.
  - cbn [children] in Hn. apply nth_error_In in Hn.
    rewrite List.Forall_forall in IH. rewrite (IH c Hn) in Hq'; [easy|].
    destruct (has_chapter c) eqn:Hc; [|reflexivity].
    assert (existsb has_chapter cs = true) by (apply existsb_exists; now exists c).
    congruence.
Qed.











(** A title division in which a chapter division holds another one. *)
Definition nested_chapter_title : Element :=
  el "DIV1" [("TYPE", "TITLE")] None None
    [ el "DIV3" [("N", "I"); ("TYPE", "CHAPTER")] None None
        [ el "HEAD" [] (Some "Chapter I") None [];
          el "DIV3" [("N", "A"); ("TYPE", "CHAPTER")] None None
            [ el "HEAD" [] (Some "Chapter A") None [];
              el "P" [] (Some "Inner text.") None [] ] ] ].



(** Its four words of text are counted for both chapters. *)
Example nested_chapter_counted_twice :
  collect chapter_tuple (List.filter is_chapter (ET.iter nested_chapter_title))
  = Ok [ ("I", "Chapter I", 6); ("A", "Chapter A", 4) ].
Proof. vm_compute. reflexivity. Qed.


(** ** The database writer *)

Section Writer.
Variable env : Env.

Lemma insert_loop (title : nat) (rows : list (string * string * nat))
  (conn : connection) (i : nat) (w : World) :
  for_each rows (conn, i)
    (fun '(conn, inserted) t =>
       (let! conn :=
          execute_insert (db_fault env title (S inserted)) conn (row_of title t) in
        ret (conn, inserted + 1))%io) w
  = if existsb (db_fault env title) (seq (S i) (List.length rows))
    then (Raise DatabaseError, w)
    else (Ok (mkConnection (pending conn ++ map (row_of title) rows),
              i + List.length rows), w).
Proof.
  revert conn i. induction rows as [|t rows IH]; intros conn i; simpl.
  - now rewrite app_nil_r, Nat.add_0_r; destruct conn.
  - unfold io_bind at 1. unfold io_bind at 1. unfold execute_insert.
    destruct (db_fault env title (S i)); simpl; [reflexivity|].
    rewrite IH. cbn [pending]. rewrite Nat.add_1_r, <- app_assoc. simpl.
    now rewrite Nat.add_succ_r.
Qed.

(** [insert_rows] in closed form: [connect] fails and nothing has happened;
    an [execute] or [commit] fails and the connection stays open, nothing
    committed; or all rows are committed and the connection is closed. *)
Lemma insert_rows_spec (title : nat) (rows : list (string * string * nat)) (w : World) :
  insert_rows env title rows w
  = if db_fault env title 0 then (Raise DatabaseError, w)
    else if existsb (db_fault env title) (seq 1 (S (List.length rows)))
         then (Raise DatabaseError,
               mkWorld (table w) (S (open_connections w)) (stdout w))
         else (Ok (List.length rows),
               mkWorld (table w ++ map (row_of title) rows)
                 (open_connections w) (stdout w)).
Proof.
  unfold insert_rows. unfold io_bind at 1. unfold connect.
  destruct (db_fault env title 0); [reflexivity|].
  unfold io_bind at 1. rewrite insert_loop.
  rewrite seq_S, existsb_app. simpl.
  destruct (existsb (db_fault env title) (seq 1 (List.length rows))); [reflexivity|].
  simpl. unfold io_bind, commit, close, ret. simpl.
  destruct (db_fault env title (S (List.length rows))); reflexivity.
Qed.

End Writer.

(** C5. Persistence is atomic for the batch of a title. If no database call
    of the batch fails ([connect], every [execute], [commit]), all rows are
    committed together and behind the rows that were there. If an insert
    fails, [insert_rows] raises and the table is as before. In general: when
    [insert_rows] raises, the table is unchanged; when it returns, it
    returns the number of rows and the table has gained exactly the batch. *)
Theorem insert_rows_all_or_nothing
  (env : Env) (title : nat) (rows : list (string * string * nat)) (w : World) :
  ((forall k, k <= S (List.length rows) -> db_fault env title k = false) ->
   insert_rows env title rows w
   = (Ok (List.length rows),
      mkWorld (table w ++ map (row_of title) rows) (open_connections w) (stdout w)))
  /\ ((exists k, 1 <= k <= List.length rows /\ db_fault env title k = true) ->
      (exists e, fst (insert_rows env title rows w) = Raise e)
      /\ table (snd (insert_rows env title rows w)) = table w)
  /\ (forall e, fst (insert_rows env title rows w) = Raise e ->
                table (snd (insert_rows env title rows w)) = table w)
  /\ (forall n, fst (insert_rows env title rows w) = Ok n ->
                n = List.length rows
                /\ table (snd (insert_rows env title rows w))
                   = table w ++ map (row_of title) rows).
Proof.
  rewrite insert_rows_spec.
  destruct (db_fault env title 0) eqn:H0.
  { split; [|split; [|split]].
    - intros H. rewrite H in H0; [discriminate | lia].
    - intros _. split; [now exists DatabaseError | reflexivity].
    - reflexivity.
    - discriminate. }
  destruct (existsb (db_fault env title) (seq 1 (S (List.length rows)))) eqn:Hx.
  { split; [|split; [|split]].
    - intros H. apply existsb_exists in Hx as (k & Hk & Hf).
      apply in_seq in Hk. rewrite H in Hf; [discriminate | lia].
    - intros _. split; [now exists DatabaseError | reflexivity].
    - reflexivity.
    - discriminate. }
  split; [|split; [|split]].
  - reflexivity.
  - intros (k & Hk & Hf). exfalso.
    assert (existsb (db_fault env title) (seq 1 (S (List.length rows))) = true).
    { apply existsb_exists. exists k. split; [apply in_seq; lia | exact Hf]. }
    congruence.
  - discriminate.
  - intros n [= <-]. now split.
Qed.

(** The two tuples of the minimal title document. *)
Definition two_chapters : list (string * string * nat) :=
  [ ("I", "Chapter I - General", 7); ("II", "Chapter II - [Reserved]", 4) ].

(** A world in which every title has the minimal document and nothing
    fails. *)
Definition healthy_env : Env :=
  mkEnv (fun _ => Ok (mkResponse 200 "<ECFR/>"))
        (fun _ => Ok minimal_title_document)
        (fun _ => false)
        (fun _ _ => false).

(** The same, but the second [execute] of every batch raises. *)
Definition second_insert_fails_env : Env :=
  mkEnv (fun _ => Ok (mkResponse 200 "<ECFR/>"))
        (fun _ => Ok minimal_title_document)
        (fun _ => false)
        (fun _ k => (k =? 2)%nat).

Lemma insert_rows_all_or_nothing_witness :
  insert_rows healthy_env 7 two_chapters fresh
  = (Ok 2,
     mkWorld [ mkRow 7 "I" "Chapter I - General" 7 19 false;
               mkRow 7 "II" "Chapter II - [Reserved]" 4 23 true ] 0 [])
  /\ ((exists e, fst (insert_rows second_insert_fails_env 7 two_chapters fresh) = Raise e)
      /\ table (snd (insert_rows second_insert_fails_env 7 two_chapters fresh)) = []).
Proof.
  split.
  - apply (proj1 (insert_rows_all_or_nothing healthy_env 7 two_chapters fresh)).
    intros k _. reflexivity.
  - apply (proj1 (proj2 (insert_rows_all_or_nothing
                           second_insert_fails_env 7 two_chapters fresh))).
    exists 2. split; [simpl; lia | reflexivity].
Defined.

(** When [connect] succeeds and a later call raises, the connection stays
    open: [cur.close()] and [conn.close()] are not reached. *)
Lemma insert_rows_leaves_connection_open
  (env : Env) (title : nat) (rows : list (string * string * nat)) (w : World) :
  db_fault env title 0 = false ->
  (exists k, 1 <= k <= S (List.length rows) /\ db_fault env title k = true) ->
  insert_rows env title rows w
  = (Raise DatabaseError, mkWorld (table w) (S (open_connections w)) (stdout w)).
Proof.
  intros H0 (k & Hk & Hf). rewrite insert_rows_spec, H0.
  assert (existsb (db_fault env title) (seq 1 (S (List.length rows))) = true) as ->.
  { apply existsb_exists. exists k. split; [apply in_seq; lia | exact Hf]. }
  reflexivity.
Qed.

(** C6. The specification wants the connection released on every exit path. When
    the second insert of a batch raises, [insert_rows] ends with one more
    open connection than before; on the normal path the count is as
    before. *)
Theorem failed_insert_keeps_connection_open (w : World) :
  insert_rows second_insert_fails_env 7 two_chapters w
  = (Raise DatabaseError, mkWorld (table w) (S (open_connections w)) (stdout w))
  /\ open_connections (snd (insert_rows healthy_env 7 two_chapters w))
     = open_connections w.
Proof.
  split.
  - apply insert_rows_leaves_connection_open; [reflexivity|].
    exists 2. split; [simpl; lia | reflexivity].
  - rewrite insert_rows_spec. reflexivity.
Qed.

(** ** One title at a time *)

(** The world [w] with what [d] holds added behind it. *)
Definition extend (w d : World) : World :=
  mkWorld (table w ++ table d)
    (open_connections w + open_connections d)
    (stdout w ++ stdout d).

(** A computation whose result does not depend on the world it starts in
    and which only adds to it. *)
Definition framed {A : Type} (m : IO A) : Prop :=
  forall w, m w = (fst (m fresh), extend w (snd (m fresh))).

Lemma extend_fresh_r (w : World) : extend w fresh = w.
Proof.
  destruct w. unfold extend. simpl. now rewrite !app_nil_r, Nat.add_0_r.
Qed.

Lemma extend_fresh_l (d : World) : extend fresh d = d.
Proof. now destruct d. Qed.

Lemma extend_assoc (a b c : World) : extend (extend a b) c = extend a (extend b c).
Proof. unfold extend. simpl. now rewrite <- !app_assoc, Nat.add_assoc. Qed.

Lemma framed_lift {A : Type} (r : result A) : framed (lift r).
Proof. intros w. unfold lift. simpl. now rewrite extend_fresh_r. Qed.

Lemma framed_ret {A : Type} (a : A) : framed (ret a).
Proof. exact (framed_lift (Ok a)). Qed.

Lemma framed_raise {A : Type} (e : exn) : framed (@raise A e).
Proof. exact (framed_lift (Raise e)). Qed.

Lemma framed_print (l : line) : framed (print l).
Proof.
  intros w. unfold print, extend. simpl. now rewrite app_nil_r, Nat.add_0_r.
Qed.

Lemma framed_bind {A B : Type} (m : IO A) (k : A -> IO B) :
  framed m -> (forall a, framed (k a)) -> framed (io_bind m k).
Proof.
  intros Hm Hk w. unfold io_bind. rewrite (Hm w).
  destruct (m fresh) as [[a|e] d]; simpl; [|reflexivity].
  rewrite (Hk a (extend w d)), (Hk a d). simpl. now rewrite extend_assoc.
Qed.

Lemma framed_try_except {A : Type} (m : IO A) (h : exn -> IO A) :
  framed m -> (forall e, framed (h e)) -> framed (try_except m h).
Proof.
  intros Hm Hh w. unfold try_except. rewrite (Hm w).
  destruct (m fresh) as [[a|e] d]; simpl; [reflexivity|].
  rewrite (Hh e (extend w d)), (Hh e d). simpl. now rewrite extend_assoc.
Qed.

Lemma framed_for_each {A S : Type} (xs : list A) (s : S) (body : S -> A -> IO S) :
  (forall s x, framed (body s x)) -> framed (for_each xs s body).
Proof.
  intros Hb. revert s. induction xs as [|x xs IH]; intros s; simpl.
  - apply framed_ret.
  - apply framed_bind; [apply Hb | intros s'; apply IH].
Qed.

Lemma framed_yield_chapters (root : Element) : framed (yield_chapters root).
Proof.
  unfold yield_chapters.
  destruct (ET.find_descendant root "DIV1" "TYPE" "TITLE").
  - apply framed_lift.
  - apply framed_bind; [apply framed_print | intros _; apply framed_ret].
Qed.

Section Titles.
Variable env : Env.

Lemma framed_insert_rows (title : nat) (rows : list (string * string * nat)) :
  framed (insert_rows env title rows).
Proof.
  intros w. rewrite !insert_rows_spec.
  destruct (db_fault env title 0); [cbn [fst snd]; now rewrite extend_fresh_r|].
  destruct (existsb (db_fault env title) (seq 1 (S (List.length rows))));
    unfold extend, fresh; cbn [fst snd table open_connections stdout];
    now rewrite ?app_nil_r, ?Nat.add_0_r, ?Nat.add_1_r.
Qed.

Lemma framed_fetch_title_xml (title : nat) : framed (fetch_title_xml env title).
Proof.
  unfold fetch_title_xml.
  apply framed_bind; [apply framed_print | intros _].
  apply framed_bind; [apply framed_lift | intros resp].
  destruct (negb (status_code resp =? 200)%nat); [apply framed_raise | apply framed_ret].
Qed.

Lemma framed_parse_chapters (xml_text : string) :
  framed (parse_chapters_for_wordcount env xml_text).
Proof.
  unfold parse_chapters_for_wordcount.
  apply framed_bind; [apply framed_lift | intros root; apply framed_yield_chapters].
Qed.

Lemma framed_attempt (title : nat) : framed (attempt env title).
Proof.
  unfold attempt.
  apply framed_bind; [apply framed_fetch_title_xml | intros xml].
  apply framed_bind; [apply framed_parse_chapters | intros chapters].
  apply framed_insert_rows.
Qed.

Lemma framed_process_title (title : nat) : framed (process_title env title).
Proof.
  unfold process_title. apply framed_try_except.
  - apply framed_bind; [apply framed_attempt | intros c; apply framed_print].
  - intros e. apply framed_print.
Qed.

(** [process_title] never raises: that is the [try] of [main]. *)
Lemma process_title_returns (title : nat) (w : World) :
  fst (process_title env title w) = Ok tt.
Proof.
  unfold process_title, try_except, io_bind.
  destruct (attempt env title w) as [[c|e] w']; reflexivity.
Qed.

End Titles.

(** ** The run over all titles *)

(** The rows of title [n]. *)
Definition has_title (n : nat) (r : Row) : bool := (col_title r =? n)%nat.

Section Run.
Variable env : Env.

(** What processing a title alone, in a fresh world, leaves behind. *)
Definition alone (title : nat) : World := snd (process_title env title fresh).

Lemma titles_loop (l : list nat) (w : World) :
  for_each l tt (fun _ title => process_title env title) w
  = (Ok tt, fold_left (fun w t => extend w (alone t)) l w).
Proof.
  revert w. induction l as [|t l IH]; intros w; simpl; [reflexivity|].
  unfold io_bind. rewrite (framed_process_title env t w), process_title_returns.
  apply IH.
Qed.

Lemma table_fold_extend (D : nat -> World) (l : list nat) (w : World) :
  table (fold_left (fun w t => extend w (D t)) l w)
  = table w ++ flat_map (fun t => table (D t)) l.
Proof.
  revert w. induction l as [|t l IH]; intros w; simpl; [now rewrite app_nil_r|].
  rewrite IH. simpl. now rewrite app_assoc.
Qed.

Lemma stdout_fold_extend (D : nat -> World) (l : list nat) (w : World) :
  stdout (fold_left (fun w t => extend w (D t)) l w)
  = stdout w ++ flat_map (fun t => stdout (D t)) l.
Proof.
  revert w. induction l as [|t l IH]; intros w; simpl; [now rewrite app_nil_r|].
  rewrite IH. simpl. now rewrite app_assoc.
Qed.

Lemma setup_postgres_returns (w : World) :
  (forall k, setup_fault env k = false) ->
  setup_postgres env w
  = (Ok tt, mkWorld (table w ++ []) (open_connections w) (stdout w)).
Proof.
  intros H. unfold setup_postgres, io_bind, connect, execute_create, commit, close, ret.
  now rewrite !H.
Qed.

(** [main] with any list of titles in the place of [TITLES]. *)
Lemma run_spec (l : list nat) (w : World) :
  (forall k, setup_fault env k = false) ->
  let out :=
    (print msg_setup ;;
     setup_postgres env ;;
     for_each l tt (fun _ title => process_title env title) ;;
     print msg_done)%io w in
  fst out = Ok tt
  /\ table (snd out) = table w ++ flat_map (fun t => table (alone t)) l
  /\ stdout (snd out)
     = (stdout w ++ [msg_setup]) ++ flat_map (fun t => stdout (alone t)) l ++ [msg_done].
Proof.
  intros H out. subst out. unfold io_bind, print. cbv beta iota.
  rewrite (setup_postgres_returns _ H). cbv beta iota.
  rewrite titles_loop. cbn [fst snd table stdout].
  rewrite table_fold_extend, stdout_fold_extend. cbn [table stdout].
  split; [reflexivity|]. split; [now rewrite app_nil_r | now rewrite app_assoc].
Qed.

Lemma fetch_table (title : nat) (w : World) :
  table (snd (fetch_title_xml env title w)) = table w.
Proof.
  unfold fetch_title_xml, io_bind, print, lift, raise, ret.
  destruct (requests_get env title) as [resp|e]; [|reflexivity].
  now destruct (negb (status_code resp =? 200)%nat).
Qed.

Lemma parse_table (xml_text : string) (w : World) :
  table (snd (parse_chapters_for_wordcount env xml_text w)) = table w.
Proof.
  unfold parse_chapters_for_wordcount, io_bind, lift, yield_chapters.
  destruct (fromstring env xml_text) as [root|e]; [|reflexivity].
  now destruct (ET.find_descendant root "DIV1" "TYPE" "TITLE").
Qed.

(** A title either raises and leaves the table alone, or adds the rows of
    all its chapters. *)
Lemma attempt_cases (title : nat) (w : World) :
  (exists e, fst (attempt env title w) = Raise e
             /\ table (snd (attempt env title w)) = table w)
  \/ (exists chapters,
         fst (attempt env title w) = Ok (List.length chapters)
         /\ table (snd (attempt env title w))
            = table w ++ map (row_of title) chapters).
Proof.
  assert (E : attempt env title w
              = match fetch_title_xml env title w with
                | (Ok xml, w1) =>
                    match parse_chapters_for_wordcount env xml w1 with
                    | (Ok chapters, w2) => insert_rows env title chapters w2
                    | (Raise e, w2) => (Raise e, w2)
                    end
                | (Raise e, w1) => (Raise e, w1)
                end) by reflexivity.
  rewrite E. clear E.
  pose proof (fetch_table title w) as Hf.
  destruct (fetch_title_xml env title w) as [[xml|e] w1]; simpl in Hf;
    [|left; now exists e].
  pose proof (parse_table xml w1) as Hp.
  destruct (parse_chapters_for_wordcount env xml w1) as [[chapters|e] w2];
    simpl in Hp; [|left; exists e; simpl; split; congruence].
  rewrite insert_rows_spec.
  destruct (db_fault env title 0);
    [left; exists DatabaseError; simpl; split; congruence|].
  destruct (existsb (db_fault env title) (seq 1 (S (List.length chapters))));
    [left; exists DatabaseError; simpl; split; congruence|].
  right. exists chapters. simpl. split; congruence.
Qed.

Lemma alone_table (title : nat) :
  table (alone title) = table (snd (attempt env title fresh)).
Proof.
  unfold alone, process_title, try_except, io_bind.
  destruct (attempt env title fresh) as [[c|e] d]; reflexivity.
Qed.

Lemma alone_stdout_error (title : nat) (e : exn) :
  fst (attempt env title fresh) = Raise e ->
  In (msg_error title e) (stdout (alone title)).
Proof.
  unfold alone, process_title, try_except, io_bind.
  destruct (attempt env title fresh) as [[c|e'] d]; simpl; [discriminate|].
  intros [= ->]. apply in_or_app. right. now left.
Qed.

Lemma alone_stdout_inserted (title count : nat) :
  fst (attempt env title fresh) = Ok count ->
  In (msg_inserted title count) (stdout (alone title)).
Proof.
  unfold alone, process_title, try_except, io_bind.
  destruct (attempt env title fresh) as [[c|e'] d]; simpl; [|discriminate].
  intros [= ->]. apply in_or_app. right. now left.
Qed.

Lemma alone_rows_have_title (title : nat) :
  Forall (fun r => col_title r = title) (table (alone title)).
Proof.
  rewrite alone_table.
  destruct (attempt_cases title fresh) as [(e & _ & ->)|(chapters & _ & ->)]; simpl.
  - constructor.
  - apply List.Forall_forall. intros r Hr. apply in_map_iff in Hr as ([[l h] wc] & <- & _).
    reflexivity.
Qed.

End Run.

Lemma filter_has_title_all (n : nat) (rows : list Row) :
  Forall (fun r => col_title r = n) rows -> List.filter (has_title n) rows = rows.
Proof.
  induction 1 as [|r rows Hr _ IH]; simpl; [reflexivity|].
  unfold has_title at 1. rewrite Hr, Nat.eqb_refl. now rewrite IH.
Qed.

Lemma filter_has_title_none (n m : nat) (rows : list Row) :
  m <> n -> Forall (fun r => col_title r = m) rows -> List.filter (has_title n) rows = [].
Proof.
  intros Hmn. induction 1 as [|r rows Hr _ IH]; simpl; [reflexivity|].
  unfold has_title at 1. rewrite Hr. now apply Nat.eqb_neq in Hmn as ->.
Qed.

Lemma filter_has_title_flat_map (f : nat -> list Row) (l : list nat) (n : nat) :
  (forall m, Forall (fun r => col_title r = m) (f m)) ->
  List.NoDup l -> In n l ->
  List.filter (has_title n) (flat_map f l) = f n.
Proof.
  intros Hf. induction 1 as [|m l Hm Hl IH]; [easy|].
  assert (Hnone : forall l', ~ In n l' -> List.filter (has_title n) (flat_map f l') = []).
  { induction l' as [|k l' IHl']; simpl; [reflexivity|]. intros Hk.
    rewrite List.filter_app, (filter_has_title_none n k), IHl'; auto. }
  simpl. rewrite List.filter_app. intros [->|Hin].
  - now rewrite (filter_has_title_all _ _ (Hf n)), (Hnone l Hm), app_nil_r.
  - rewrite (filter_has_title_none n m), (IH Hin); [reflexivity | | apply Hf].
    intros ->. contradiction.
Qed.

(** ** Why a title fails *)

Section Failures.
Variable env : Env.

Lemma attempt_unfold (title : nat) (w : World) :
  attempt env title w
  = match requests_get env title with
    | Ok resp =>
        if negb (status_code resp =? 200)%nat
        then (Raise (RuntimeError title (status_code resp)),
              mkWorld (table w) (open_connections w)
                (stdout w ++ [msg_downloading title]))
        else
          match fromstring env (resp_text resp) with
          | Ok root =>
              match yield_chapters root
                      (mkWorld (table w) (open_connections w)
                         (stdout w ++ [msg_downloading title])) with
              | (Ok chapters, w2) => insert_rows env title chapters w2
              | (Raise e, w2) => (Raise e, w2)
              end
          | Raise e =>
              (Raise e,
               mkWorld (table w) (open_connections w)
                 (stdout w ++ [msg_downloading title]))
          end
    | Raise e =>
        (Raise e,
         mkWorld (table w) (open_connections w)
           (stdout w ++ [msg_downloading title]))
    end.
Proof.
  unfold attempt, fetch_title_xml, parse_chapters_for_wordcount, io_bind, print, lift,
    raise, ret.
  destruct (requests_get env title) as [resp|e]; [|reflexivity].
  destruct (negb (status_code resp =? 200)%nat); [reflexivity|].
  now destruct (fromstring env (resp_text resp)).
Qed.

(** The request itself raises: timeout, no connection. *)
Lemma attempt_request_raises (title : nat) (e : exn) (w : World) :
  requests_get env title = Raise e -> fst (attempt env title w) = Raise e.
Proof. intros H. now rewrite attempt_unfold, H. Qed.

(** A status other than 200. *)
Lemma attempt_bad_status (title : nat) (resp : Response) (w : World) :
  requests_get env title = Ok resp -> status_code resp <> 200 ->
  fst (attempt env title w) = Raise (RuntimeError title (status_code resp)).
Proof.
  intros H Hs. rewrite attempt_unfold, H.
  apply Nat.eqb_neq in Hs. now rewrite Hs.
Qed.

(** Markup that does not parse. *)
Lemma attempt_unparseable (title : nat) (resp : Response) (e : exn) (w : World) :
  requests_get env title = Ok resp ->
  fromstring env (resp_text resp) = Raise e ->
  exists e', fst (attempt env title w) = Raise e'.
Proof.
  intros H Hp. rewrite attempt_unfold, H, Hp.
  destruct (negb (status_code resp =? 200)%nat); eexists; reflexivity.
Qed.

(** A database call of the batch raises. *)
Lemma attempt_db_fault (title : nat) (resp : Response) (root : Element)
  (chapters : list (string * string * nat)) (k : nat) (w : World) :
  requests_get env title = Ok resp ->
  fromstring env (resp_text resp) = Ok root ->
  fst (yield_chapters root fresh) = Ok chapters ->
  k <= S (List.length chapters) -> db_fault env title k = true ->
  exists e', fst (attempt env title w) = Raise e'.
Proof.
  intros H Hp Hy Hk Hf. rewrite attempt_unfold, H, Hp.
  destruct (negb (status_code resp =? 200)%nat); [eexists; reflexivity|].
  rewrite (framed_yield_chapters root _), Hy, insert_rows_spec.
  destruct (db_fault env title 0) eqn:H0; [eexists; reflexivity|].
  assert (existsb (db_fault env title) (seq 1 (S (List.length chapters))) = true) as ->.
  { apply existsb_exists. exists k. split; [|exact Hf]. apply in_seq.
    destruct k; [congruence | lia]. }
  eexists; reflexivity.
Qed.

End Failures.

(** C7. For every run of [main] over the titles 1 to 50 whose set-up
    succeeds, in every environment and from every world: the run ends
    normally, and the rows it adds to the table are, for every title [n],
    exactly the rows that title gives when it is processed alone. A title
    whose processing raises, for whatever reason, adds no row and is
    reported; a title whose processing returns adds all its rows and is
    reported with their number. In particular a title adds no row when its
    status is not 200 (HTTP 404 for title 13, say), when its markup does
    not parse, or when a database call of its batch fails; what the other
    titles add does not depend on it. *)
Theorem main_contains_failures_per_title (env : Env) (w : World) :
  (forall k, setup_fault env k = false) ->
  fst (main env w) = Ok tt
  /\ exists added,
       table (snd (main env w)) = table w ++ added
       /\ forall n, 1 <= n <= 50 ->
            List.filter (has_title n) added = table (snd (attempt env n fresh))
            /\ (forall e, fst (attempt env n fresh) = Raise e ->
                  List.filter (has_title n) added = []
                  /\ In (msg_error n e) (stdout (snd (main env w))))
            /\ (forall count, fst (attempt env n fresh) = Ok count ->
                  List.length (List.filter (has_title n) added) = count
                  /\ In (msg_inserted n count) (stdout (snd (main env w))))
            /\ (forall resp, requests_get env n = Ok resp ->
                  status_code resp <> 200 ->
                  List.filter (has_title n) added = [])
            /\ (forall resp e, requests_get env n = Ok resp ->
                  fromstring env (resp_text resp) = Raise e ->
                  List.filter (has_title n) added = [])
            /\ (forall resp root chapters k, requests_get env n = Ok resp ->
                  fromstring env (resp_text resp) = Ok root ->
                  fst (yield_chapters root fresh) = Ok chapters ->
                  k <= S (List.length chapters) -> db_fault env n k = true ->
                  List.filter (has_title n) added = []).
Proof.
  intros Hsetup.
  destruct (run_spec env TITLES w Hsetup) as (Hok & Htable & Hout).
  change ((print msg_setup ;; setup_postgres env ;;
           for_each TITLES tt (fun _ title => process_title env title) ;;
           print msg_done)%io w) with (main env w) in *.
  split; [exact Hok|].
  exists (flat_map (fun t => table (alone env t)) TITLES).
  split; [exact Htable|].
  intros n Hrange.
  assert (Hn : In n TITLES) by (apply in_seq; lia).
  assert (Hrows : List.filter (has_title n)
                    (flat_map (fun t => table (alone env t)) TITLES)
                  = table (snd (attempt env n fresh))).
  { rewrite (filter_has_title_flat_map (fun t => table (alone env t)) TITLES n).
    - apply alone_table.
    - intros m. apply alone_rows_have_title.
    - apply seq_NoDup.
    - exact Hn. }
  assert (Hfail : forall e, fst (attempt env n fresh) = Raise e ->
                            List.filter (has_title n)
                              (flat_map (fun t => table (alone env t)) TITLES) = []).
  { intros e He. rewrite Hrows.
    destruct (attempt_cases env n fresh) as [(e' & _ & ->)|(chapters & Hc & _)];
      [reflexivity | congruence]. }
  assert (Hprinted : forall l, In l (stdout (alone env n)) ->
                               In l (stdout (snd (main env w)))).
  { intros l Hl. rewrite Hout. apply in_or_app. right. apply in_or_app. left.
    apply in_flat_map. now exists n. }
  split; [exact Hrows|]. split; [|split; [|split; [|split]]].
  - intros e He. split; [exact (Hfail e He)|].
    now apply Hprinted, alone_stdout_error.
  - intros count Hc. split; [|now apply Hprinted, alone_stdout_inserted].
    rewrite Hrows.
    destruct (attempt_cases env n fresh) as [(e' & He & _)|(chapters & Hc' & ->)];
      [congruence|].
    simpl. rewrite length_map. congruence.
  - intros resp Hg Hs. exact (Hfail _ (attempt_bad_status env n resp fresh Hg Hs)).
  - intros resp e Hg Hp.
    destruct (attempt_unparseable env n resp e fresh Hg Hp) as [e' He'].
    exact (Hfail _ He').
  - intros resp root chapters k Hg Hp Hy Hk Hf.
    destruct (attempt_db_fault env n resp root chapters k fresh Hg Hp Hy Hk Hf)
      as [e' He'].
    exact (Hfail _ He').
Qed.

(** Title 13 is not there: HTTP 404. All other titles have the minimal
    document. *)
Definition title_13_missing_env : Env :=
  mkEnv (fun t => if (t =? 13)%nat then Ok (mkResponse 404 "Not Found")
                  else Ok (mkResponse 200 "<ECFR/>"))
        (fun _ => Ok minimal_title_document)
        (fun _ => false)
        (fun _ _ => false).

Lemma main_contains_failures_per_title_witness :
  let rows := table (snd (main title_13_missing_env fresh)) in
  List.filter (has_title 13) rows = []
  /\ List.filter (has_title 12) rows
     = [ mkRow 12 "I" "Chapter I - General" 7 19 false;
         mkRow 12 "II" "Chapter II - [Reserved]" 4 23 true ]
  /\ List.filter (has_title 14) rows
     = [ mkRow 14 "I" "Chapter I - General" 7 19 false;
         mkRow 14 "II" "Chapter II - [Reserved]" 4 23 true ].
Proof.
  destruct (main_contains_failures_per_title title_13_missing_env fresh)
    as (_ & added & Htable & Hn); [reflexivity|].
  simpl in Htable. cbv zeta. rewrite Htable.
  assert (H12 : 1 <= 12 <= 50) by lia.
  assert (H13 : 1 <= 13 <= 50) by lia.
  assert (H14 : 1 <= 14 <= 50) by lia.
  split; [|split].
  - destruct (Hn 13 H13) as (_ & _ & _ & H & _).
    apply (H (mkResponse 404 "Not Found")); [reflexivity | discriminate].
  - destruct (Hn 12 H12) as (-> & _). vm_compute. reflexivity.
  - destruct (Hn 14 H14) as (-> & _). vm_compute. reflexivity.
Defined.

(** The whole run with title 13 missing, computed. *)
Example title_13_missing_run :
  let out := main title_13_missing_env fresh in
  fst out = Ok tt
  /\ List.length (table (snd out)) = 98
  /\ List.filter (has_title 13) (table (snd out)) = []
  /\ In (msg_error 13 (RuntimeError 13 404)) (stdout (snd out))
  /\ open_connections (snd out) = 0.
Proof.
  vm_compute. repeat split.
  do 26 right. now left.
Qed.

(** A title with a good chapter and a chapter whose heading element has no
    text: the exception of the second ends the generator, the first is
    lost with it and the title is skipped. *)
Definition empty_heading_env : Env :=
  mkEnv (fun _ => Ok (mkResponse 200 "<ECFR/>"))
        (fun _ =>
           Ok (el "ECFR" [] None None
                 [ el "DIV1" [("TYPE", "TITLE")] None None
                     [ el "DIV3" [("N", "I"); ("TYPE", "CHAPTER")] None None
                         [ el "HEAD" [] (Some "Chapter I - General") None [] ];
                       chapter_with_empty_heading ] ]))
        (fun _ => false)
        (fun _ _ => false).

Example empty_heading_skips_title :
  process_title empty_heading_env 1 fresh
  = (Ok tt, mkWorld [] 0 [msg_downloading 1; msg_error 1 AttributeError]).
Proof. vm_compute. reflexivity. Qed.

(** * Further properties of the script *)

(** ** [clean_text] and [word_count] *)

Lemma length_append (a b : string) :
  String.length (a +:+ b) = String.length a + String.length b.
Proof. induction a as [|c a IH]; simpl; [reflexivity | now rewrite IH]. Qed.

Lemma rstrip_length (s : string) : String.length (PyStr.rstrip s) <= String.length s.
Proof.
  induction s as [|c r IH]; simpl; [lia|].
  destruct (PyStr.rstrip r) as [|d x]; [destruct (PyStr.isspace c)|]; simpl in *; lia.
Qed.

Lemma strip_length (s : string) : String.length (PyStr.strip s) <= String.length s.
Proof.
  unfold PyStr.strip. pose proof (rstrip_length (PyStr.lstrip s)).
  pose proof (PyStr.lstrip_length s). lia.
Qed.

(** A replacement by one character never makes the text longer. *)
Lemma sub_length (p : Re.pattern) (s : string) :
  String.length (Re.sub p " " s) <= String.length s.
Proof.
  induction s as [s IH] using string_length_ind.
  destruct s as [|c r]; [now rewrite sub_empty|].
  destruct (Re.match_at p (String c r)) as [rest|] eqn:Hm.
  - rewrite (sub_match _ _ _ _ _ Hm). pose proof (Re.match_shrinks _ _ _ Hm) as Hlt.
    pose proof (IH rest Hlt). simpl in *. lia.
  - rewrite (sub_no_match _ _ _ _ Hm). assert (Hlt : String.length r < String.length (String c r))
      by (simpl; lia).
    pose proof (IH r Hlt). simpl. lia.
Qed.

Lemma clean_text_starts_clean (s : string) : starts_clean (clean_text s).
Proof. unfold clean_text, PyStr.strip. apply rstrip_starts_clean, lstrip_starts_clean. Qed.

Lemma word_count_split (text : string) : word_count text = List.length (PyStr.split text).
Proof. destruct text; [now rewrite split_empty | reflexivity]. Qed.

Lemma split_spaceless (c : ascii) (w : string) :
  PyStr.isspace c = false -> spaceless w -> PyStr.split (String c w) = [String c w].
Proof.
  intros Hc Hw. rewrite (split_word _ _ Hc).
  assert (H : PyStr.span_word w = (w, EmptyString)).
  { induction w as [|d w IH]; [reflexivity|]. destruct Hw as [Hd Hw].
    simpl. rewrite Hd, (IH Hw). reflexivity. }
  rewrite H. simpl. now rewrite split_empty.
Qed.

(** Splitting the joined words gives the words back. *)
Lemma split_unwords_split (s : string) :
  PyStr.split (unwords (PyStr.split s)) = PyStr.split s.
Proof.
  induction s as [s IH] using string_length_ind.
  rewrite (split_unfold s).
  destruct (PyStr.lstrip s) as [|c r] eqn:Hl; [apply split_empty|].
  pose proof (lstrip_head _ _ _ Hl) as Hc.
  pose proof (span_word_spaceless r) as Hw.
  assert (Hlen : String.length (snd (PyStr.span_word r)) < String.length s).
  { pose proof (PyStr.span_word_length r) as Hr.
    pose proof (PyStr.lstrip_length s) as Hs.
    rewrite Hl in Hs. simpl in Hs. lia. }
  specialize (IH _ Hlen). rewrite unwords_cons.
  destruct (PyStr.split (snd (PyStr.span_word r))) as [|w2 ws] eqn:Hs.
  - now apply split_spaceless.
  - change (String c (fst (PyStr.span_word r)) +:+ " " +:+ unwords (w2 :: ws))
      with (String c (fst (PyStr.span_word r)) +:+ String " " (unwords (w2 :: ws))).
    rewrite split_append_space, IH. now rewrite split_spaceless.
Qed.

Lemma split_clean_text (s : string) :
  PyStr.split (clean_text s) = PyStr.split (Re.sub Re.TAG " " s).
Proof.
  unfold clean_text.
  change (PyStr.strip (Re.sub Re.SPACES " " (Re.sub Re.TAG " " s)))
    with (normalize_spaces (Re.sub Re.TAG " " s)).
  rewrite normalize_spaces_unwords. apply split_unwords_split.
Qed.

(** X1. The cleaned text is its own words joined by single spaces, and these
    are the words of the text with every tag replaced by a space:
    [clean_text(s) == " ".join(re.sub(TAG, " ", s).split())] and
    [clean_text(s) == " ".join(clean_text(s).split())]. No [<...>] fragment
    is left in it. *)
Theorem clean_text_joined_words (s : string) :
  clean_text s = unwords (PyStr.split (Re.sub Re.TAG " " s))
  /\ clean_text s = unwords (PyStr.split (clean_text s))
  /\ matches_nowhere Re.TAG (clean_text s).
Proof.
  assert (H1 : clean_text s = unwords (PyStr.split (Re.sub Re.TAG " " s)))
    by apply normalize_spaces_unwords.
  split; [exact H1|]. split.
  - rewrite H1 at 2. now rewrite split_unwords_split.
  - apply strip_keeps_tag_free, sub_spaces_keeps_tag_free, sub_tag_matches_nowhere.
Qed.

(** X2. Cleaning never makes a text longer. *)
Theorem clean_text_not_longer (s : string) :
  String.length (clean_text s) <= String.length s.
Proof.
  unfold clean_text.
  pose proof (strip_length (Re.sub Re.SPACES " " (Re.sub Re.TAG " " s))).
  pose proof (sub_length Re.SPACES (Re.sub Re.TAG " " s)).
  pose proof (sub_length Re.TAG s). lia.
Qed.

(** X3. The whitespace step of [clean_text] keeps the words: the words of
    the cleaned text are the words of the text with its tags replaced by
    spaces, and [word_count] of the cleaned text counts them. *)
Theorem clean_text_keeps_words (s : string) :
  PyStr.split (clean_text s) = PyStr.split (Re.sub Re.TAG " " s)
  /\ word_count (clean_text s) = List.length (PyStr.split (Re.sub Re.TAG " " s)).
Proof.
  split; [apply split_clean_text|]. now rewrite word_count_split, split_clean_text.
Qed.

(** X4. A cleaned text has no word exactly when it is empty. *)
Theorem clean_text_no_word_iff_empty (s : string) :
  word_count (clean_text s) = 0 <-> clean_text s = "".
Proof.
  split; [|intros ->; reflexivity].
  pose proof (clean_text_starts_clean s) as Hc.
  destruct (clean_text s) as [|c r]; [reflexivity|].
  simpl in Hc. rewrite word_count_split, (split_word _ _ Hc). discriminate.
Qed.

(** X5. [word_count] is additive over two texts joined by a space. *)
Theorem word_count_additive (a b : string) :
  word_count (a +:+ " " +:+ b) = word_count a + word_count b.
Proof.
  rewrite !word_count_split.
  change (a +:+ " " +:+ b) with (a +:+ String " " b).
  now rewrite split_append_space, length_app.
Qed.

Lemma split_length_bound (s : string) :
  2 * List.length (PyStr.split s) <= String.length s + 1.
Proof.
  induction s as [s IH] using string_length_ind.
  destruct s as [|c r]; [rewrite split_empty; simpl; lia|].
  destruct (PyStr.isspace c) eqn:Hc.
  - rewrite (split_space _ _ Hc).
    assert (Hlt : String.length r < String.length (String c r)) by (simpl; lia).
    pose proof (IH r Hlt). simpl. lia.
  - rewrite (split_word _ _ Hc).
    pose proof (PyStr.span_word_length r) as Hlen.
    pose proof (span_word_rest r) as Hrest.
    destruct (snd (PyStr.span_word r)) as [|d x].
    + rewrite split_empty. simpl. lia.
    + rewrite (split_space _ _ Hrest). simpl in Hlen.
      assert (Hlt : String.length x < String.length (String c r)) by (simpl; lia).
      pose proof (IH x Hlt). simpl. lia.
Qed.

(** X6. A text of [n] characters has at most [(n + 1) / 2] words. *)
Theorem word_count_bound (text : string) :
  2 * word_count text <= String.length text + 1.
Proof. rewrite word_count_split. apply split_length_bound. Qed.

(** ** Word counts of subtrees *)

Lemma length_flat_map_split (pieces : list string) :
  List.length (flat_map PyStr.split pieces) = list_sum (map word_count pieces).
Proof.
  induction pieces as [|p l IH]; simpl; [reflexivity|].
  now rewrite length_app, IH, word_count_split.
Qed.

(** The words of a normalized subtree, when no text node holds a [<]. *)
Lemma split_normalize (e : Element) :
  Forall (fun p => PyStr.contains "<" p = false) (text_pieces e) ->
  PyStr.split (normalize e) = flat_map PyStr.split (text_pieces e).
Proof.
  intros H. unfold normalize. rewrite split_clean_text, extract_text_pieces.
  rewrite sub_matches_nowhere; [apply split_spaced|].
  now apply lt_free_matches_nowhere, lt_free_spaced.
Qed.

Lemma word_count_normalize (e : Element) :
  Forall (fun p => PyStr.contains "<" p = false) (text_pieces e) ->
  word_count (normalize e) = list_sum (map word_count (text_pieces e)).
Proof.
  intros H. now rewrite word_count_split, (split_normalize e H), length_flat_map_split.
Qed.

(** X7. When no text node of a subtree contains [<], its word count is the
    sum of the word counts of its text nodes: every word of every text and
    tail is counted once. *)
Theorem subtree_word_count_is_sum (e : Element) :
  Forall (fun p => PyStr.contains "<" p = false) (text_pieces e) ->
  word_count (normalize e) = list_sum (map word_count (text_pieces e)).
Proof. apply word_count_normalize. Qed.

Lemma subtree_word_count_is_sum_witness :
  word_count (normalize mixed_paragraph)
  = list_sum (map word_count (text_pieces mixed_paragraph)).
Proof. apply subtree_word_count_is_sum. repeat constructor. Defined.

Lemma span_word_rstrip (s : string) :
  PyStr.span_word (PyStr.rstrip s)
  = (fst (PyStr.span_word s), PyStr.rstrip (snd (PyStr.span_word s))).
Proof.
  induction s as [|c r IH]; [reflexivity|].
  destruct (PyStr.isspace c) eqn:Hc.
  - cbn [PyStr.span_word]. rewrite Hc. cbn [fst snd].
    destruct (PyStr.rstrip (String c r)) as [|d x] eqn:Hr; [reflexivity|].
    assert (d = c) as ->.
    { simpl in Hr. rewrite Hc in Hr. destruct (PyStr.rstrip r); congruence. }
    simpl. now rewrite Hc.
  - assert (Hr : PyStr.rstrip (String c r) = String c (PyStr.rstrip r)).
    { simpl. rewrite Hc. now destruct (PyStr.rstrip r). }
    rewrite Hr. simpl. rewrite Hc, IH. reflexivity.
Qed.

Lemma rstrip_other (c : ascii) (r : string) :
  PyStr.isspace c = false -> PyStr.rstrip (String c r) = String c (PyStr.rstrip r).
Proof. intros Hc. simpl. rewrite Hc. now destruct (PyStr.rstrip r). Qed.

Lemma split_rstrip (s : string) : PyStr.split (PyStr.rstrip s) = PyStr.split s.
Proof.
  induction s as [s IH] using string_length_ind.
  destruct s as [|c r]; [reflexivity|].
  assert (Hlt : String.length r < String.length (String c r)) by (simpl; lia).
  destruct (PyStr.isspace c) eqn:Hc.
  - rewrite (split_space _ _ Hc), <- (IH r Hlt). simpl.
    destruct (PyStr.rstrip r) as [|d x]; [now rewrite Hc|].
    now rewrite (split_space _ _ Hc).
  - rewrite (rstrip_other _ _ Hc), !(split_word _ _ Hc), span_word_rstrip.
    cbn [fst snd]. rewrite IH; [reflexivity|].
    pose proof (PyStr.span_word_length r). simpl. lia.
Qed.

Lemma split_strip (s : string) : PyStr.split (PyStr.strip s) = PyStr.split s.
Proof. unfold PyStr.strip. now rewrite split_rstrip, split_lstrip. Qed.

Lemma text_pieces_child (e c : Element) (p : string) :
  In c (children e) -> In p (text_pieces c) -> In p (text_pieces e).
Proof.
  intros Hc Hp. destruct e as [t a tx tl cs]. cbn [text_pieces children text] in *.
  apply in_or_app. right. apply in_flat_map. exists c. split; [exact Hc|].
  apply in_or_app. now left.
Qed.

Lemma text_in_pieces (e : Element) (t : string) :
  text e = Some t -> In t (text_pieces e).
Proof.
  intros H. destruct e as [tg a tx tl cs]. cbn [text_pieces text] in *.
  rewrite H. now left.
Qed.

Lemma list_sum_in (f : string -> nat) (l : list string) (x : string) :
  In x l -> f x <= list_sum (map f l).
Proof.
  induction l as [|y l IH]; simpl; [easy|].
  intros [->|H]; [lia | specialize (IH H); lia].
Qed.

Lemma find_in_children (chapter h : Element) (name : string) :
  ET.find chapter name = Some h -> In h (children chapter).
Proof. unfold ET.find. intros H. now apply List.find_some in H. Qed.

(** X8. The word count of a chapter includes its heading: when the heading
    element has text and no text node of the chapter contains [<], the
    yielded word count is at least the word count of the yielded heading. *)
Theorem chapter_word_count_includes_heading (chapter h : Element) (t : string) :
  ET.find chapter "HEAD" = Some h -> text h = Some t ->
  Forall (fun p => PyStr.contains "<" p = false) (text_pieces chapter) ->
  exists label wc,
    chapter_tuple chapter = Ok (label, PyStr.strip t, wc)
    /\ word_count (PyStr.strip t) <= wc.
Proof.
  intros Hf Ht Hlt. eexists _, _. split.
  - unfold chapter_tuple. rewrite Hf, Ht. reflexivity.
  - fold (normalize chapter). rewrite (word_count_normalize _ Hlt).
    rewrite (word_count_split (PyStr.strip t)), split_strip, <- word_count_split.
    apply list_sum_in.
    apply (text_pieces_child chapter h); [exact (find_in_children _ _ _ Hf)|].
    now apply text_in_pieces.
Qed.

Lemma chapter_word_count_includes_heading_witness :
  exists label wc,
    chapter_tuple
      (el "DIV3" [("N", "I"); ("TYPE", "CHAPTER")] None None
         [ el "HEAD" [] (Some " Chapter I - General ") None [];
           el "P" [] (Some "This part applies.") None [] ])
    = Ok (label, PyStr.strip " Chapter I - General ", wc)
    /\ word_count (PyStr.strip " Chapter I - General ") <= wc.
Proof.
  apply (chapter_word_count_includes_heading _
           (el "HEAD" [] (Some " Chapter I - General ") None [])).
  - reflexivity.
  - reflexivity.
  - repeat constructor.
Defined.

(** ** Headings and the columns computed from them *)

Lemma strip_idempotent (s : string) : PyStr.strip (PyStr.strip s) = PyStr.strip s.
Proof.
  unfold PyStr.strip. rewrite (lstrip_fixed (PyStr.rstrip _)).
  - apply rstrip_idempotent.
  - apply rstrip_starts_clean, lstrip_starts_clean.
Qed.

Lemma char_count_length (heading : string) : char_count heading = String.length heading.
Proof. now destruct heading. Qed.

(** X12. The yielded heading is trimmed: stripping it again changes
    nothing, and the character count written for it is its length, which is
    not more than the length of the text of the heading element. A heading
    element with whitespace only gives the empty heading, the count 0 and
    no reserved flag. *)
Theorem heading_is_trimmed (chapter h : Element) (t : string) (title : nat) :
  ET.find chapter "HEAD" = Some h -> text h = Some t ->
  exists label wc,
    chapter_tuple chapter = Ok (label, PyStr.strip t, wc)
    /\ PyStr.strip (PyStr.strip t) = PyStr.strip t
    /\ col_character_count (row_of title (label, PyStr.strip t, wc))
       = String.length (PyStr.strip t)
    /\ String.length (PyStr.strip t) <= String.length t
    /\ (PyStr.lstrip t = "" ->
        row_of title (label, PyStr.strip t, wc) = mkRow title label "" wc 0 false).
Proof.
  intros Hf Ht. eexists _, _. split; [|split; [|split; [|split]]].
  - unfold chapter_tuple. rewrite Hf, Ht. reflexivity.
  - apply strip_idempotent.
  - apply char_count_length.
  - apply strip_length.
  - intros Hl. unfold PyStr.strip. rewrite Hl. reflexivity.
Qed.

Lemma heading_is_trimmed_witness :
  exists label wc,
    chapter_tuple
      (el "DIV3" [("N", "V"); ("TYPE", "CHAPTER")] None None
         [ el "HEAD" [] (Some "   ") None [] ])
    = Ok (label, PyStr.strip "   ", wc)
    /\ row_of 3 (label, PyStr.strip "   ", wc) = mkRow 3 label "" wc 0 false.
Proof.
  destruct (heading_is_trimmed
              (el "DIV3" [("N", "V"); ("TYPE", "CHAPTER")] None None
                 [ el "HEAD" [] (Some "   ") None [] ])
              (el "HEAD" [] (Some "   ") None []) "   " 3 eq_refl eq_refl)
    as (label & wc & H1 & _ & _ & _ & H5).
  exists label, wc. split; [exact H1 | apply H5; reflexivity].
Defined.

(** X13. A row that is flagged reserved has a character count of at least
    10, the length of the marker; a row with the character count 0 is not
    flagged. *)
Theorem reserved_row_has_marker_length (title : nat) (t : string * string * nat) :
  col_is_reserved (row_of title t) = true ->
  10 <= col_character_count (row_of title t).
Proof.
  destruct t as [[label heading] wc]. cbn [row_of col_is_reserved col_character_count].
  rewrite char_count_length. unfold is_reserved.
  destruct (PyStr.truthy heading); [|discriminate].
  intros H. apply contains_iff in H as (pre & post & ->).
  rewrite !length_append. simpl. lia.
Qed.

Lemma reserved_row_has_marker_length_witness :
  10 <= col_character_count (row_of 1 ("II", "Chapter II - [Reserved]", 4)).
Proof. apply reserved_row_has_marker_length. reflexivity. Defined.

(** ** What the generator yields and when it raises *)

Lemma collect_raises {A B : Type} (f : A -> result B) (l : list A) (a : A) (e : exn) :
  In a l -> f a = Raise e -> exists e', collect f l = Raise e'.
Proof.
  induction l as [|x l IH]; simpl; [easy|].
  intros [->|Hin] Hf.
  - rewrite Hf. now exists e.
  - destruct (f x) as [b|e']; simpl; [|now exists e'].
    destruct (IH Hin Hf) as [e'' ->]. now exists e''.
Qed.

Lemma collect_ok_map {A B C : Type} (f : A -> result B) (g : B -> C) (h : A -> C)
  (l : list A) (r : list B) :
  (forall a b, f a = Ok b -> g b = h a) ->
  collect f l = Ok r -> map g r = map h l.
Proof.
  intros Hgh. revert r. induction l as [|a l IH]; simpl; intros r.
  - now intros [= <-].
  - destruct (f a) as [b|e] eqn:Ha; simpl; [|discriminate].
    destruct (collect f l) as [bs|e]; simpl; [|discriminate].
    intros [= <-]. simpl. now rewrite (Hgh a b Ha), (IH bs eq_refl).
Qed.

Lemma chapter_tuple_raises (chapter h : Element) :
  ET.find chapter "HEAD" = Some h -> text h = None ->
  chapter_tuple chapter = Raise AttributeError.
Proof. intros Hf Ht. unfold chapter_tuple. now rewrite Hf, Ht. Qed.

Lemma yield_chapters_result (root : Element) (w : World) :
  fst (yield_chapters root w)
  = match ET.find_descendant root "DIV1" "TYPE" "TITLE" with
    | None => Ok []
    | Some title_elem =>
        collect chapter_tuple (List.filter is_chapter (ET.iter title_elem))
    end.
Proof.
  unfold yield_chapters. now destruct (ET.find_descendant root "DIV1" "TYPE" "TITLE").
Qed.

Lemma process_title_table (env : Env) (n : nat) (w : World) :
  table (snd (process_title env n w)) = table (snd (attempt env n w)).
Proof.
  unfold process_title, try_except, io_bind.
  destruct (attempt env n w) as [[c|e] d]; reflexivity.
Qed.

(** X9. One heading element without text costs the whole title: when the
    title division of a document holds a chapter element whose first HEAD
    child has no text, the generator raises, the three calls for the title
    raise with it, the title is reported as an error and no row of it is
    written, also not for the chapters before that one. *)
Theorem heading_without_text_fails_title
  (env : Env) (n : nat) (resp : Response) (root title_elem chapter h : Element)
  (w : World) :
  requests_get env n = Ok resp -> status_code resp = 200 ->
  fromstring env (resp_text resp) = Ok root ->
  ET.find_descendant root "DIV1" "TYPE" "TITLE" = Some title_elem ->
  In chapter (ET.iter title_elem) -> is_chapter chapter = true ->
  ET.find chapter "HEAD" = Some h -> text h = None ->
  (exists e, fst (yield_chapters root w) = Raise e)
  /\ (exists e, fst (attempt env n w) = Raise e
                /\ In (msg_error n e) (stdout (snd (process_title env n w))))
  /\ table (snd (process_title env n w)) = table w.
Proof.
  intros Hg Hs Hp Hf Hin Hch Hh Ht.
  assert (Hy : forall w', exists e, fst (yield_chapters root w') = Raise e).
  { intros w'. rewrite yield_chapters_result, Hf.
    apply (collect_raises chapter_tuple _ chapter AttributeError).
    - apply filter_In. now split.
    - now apply (chapter_tuple_raises chapter h). }
  assert (Ha : exists e, fst (attempt env n w) = Raise e).
  { rewrite attempt_unfold, Hg, Hs, Hp. change (negb (200 =? 200)%nat) with false.
    cbv iota. rewrite (framed_yield_chapters root _).
    destruct (Hy fresh) as [e ->]. now exists e. }
  split; [apply Hy|]. destruct Ha as [e He]. split.
  - exists e. split; [exact He|].
    unfold process_title, try_except, io_bind, print.
    destruct (attempt env n w) as [[c|e'] d]; cbn [fst] in He; [discriminate|].
    injection He as ->. cbn [snd stdout]. apply in_or_app. right. now left.
  - rewrite process_title_table.
    destruct (attempt_cases env n w) as [(e' & _ & Htab)|(chapters & Hc & _)];
      [exact Htab | congruence].
Qed.

Lemma heading_without_text_fails_title_witness :
  (exists e, fst (attempt empty_heading_env 1 fresh) = Raise e
             /\ In (msg_error 1 e) (stdout (snd (process_title empty_heading_env 1 fresh))))
  /\ table (snd (process_title empty_heading_env 1 fresh)) = [].
Proof.
  refine (proj2 (heading_without_text_fails_title empty_heading_env 1
                   (mkResponse 200 "<ECFR/>") _
                   (el "DIV1" [("TYPE", "TITLE")] None None
                      [ el "DIV3" [("N", "I"); ("TYPE", "CHAPTER")] None None
                          [ el "HEAD" [] (Some "Chapter I - General") None [] ];
                        chapter_with_empty_heading ])
                   chapter_with_empty_heading (el "HEAD" [] None None []) fresh
                   eq_refl eq_refl eq_refl _ _ _ _ eq_refl)).
  - vm_compute. reflexivity.
  - right. right. right. left. reflexivity.
  - vm_compute. reflexivity.
  - vm_compute. reflexivity.
Defined.

(** X10. When the generator returns, it has yielded one tuple for every
    chapter element of the title division, in document order, with the
    identifier as the [N] attribute has it (the empty string without one):
    equal identifiers are not merged. *)
Theorem yielded_identifiers_in_document_order
  (root title_elem : Element) (chapters : list (string * string * nat)) (w : World) :
  ET.find_descendant root "DIV1" "TYPE" "TITLE" = Some title_elem ->
  fst (yield_chapters root w) = Ok chapters ->
  map (fun t => fst (fst t)) chapters
  = map (fun c => default "" (attrib c !! "N"))
      (List.filter is_chapter (ET.iter title_elem))
  /\ List.length chapters
     = List.length (List.filter is_chapter (ET.iter title_elem)).
Proof.
  intros Hf. rewrite yield_chapters_result, Hf. intros Hc.
  assert (H : map (fun t => fst (fst t)) chapters
              = map (fun c => default "" (attrib c !! "N"))
                  (List.filter is_chapter (ET.iter title_elem))).
  { apply (collect_ok_map chapter_tuple _ _ _ _) with (2 := Hc).
    intros c [[l hd] wc]. unfold chapter_tuple.
    destruct (ET.find c "HEAD") as [h|]; simpl; [destruct (text h); simpl|];
      try discriminate; now intros [= <- _ _]. }
  split; [exact H|].
  apply (f_equal (@List.length string)) in H. now rewrite !length_map in H.
Qed.

(** A title division with two chapters of the same identifier and one
    without identifier. *)
Definition repeated_identifier_document : Element :=
  el "ECFR" [] None None
    [ el "DIV1" [("TYPE", "TITLE")] None None
        [ el "DIV3" [("N", "I"); ("TYPE", "CHAPTER")] None None
            [ el "HEAD" [] (Some "Chapter I") None [] ];
          el "DIV3" [("N", "I"); ("TYPE", "CHAPTER")] None None
            [ el "HEAD" [] (Some "Chapter I again") None [] ];
          el "DIV3" [("TYPE", "CHAPTER")] None None [] ] ].

Lemma yielded_identifiers_in_document_order_witness :
  exists chapters,
    fst (yield_chapters repeated_identifier_document fresh) = Ok chapters
    /\ map (fun t => fst (fst t)) chapters = [ "I"; "I"; "" ].
Proof.
  exists [ ("I", "Chapter I", 2); ("I", "Chapter I again", 3); ("", "", 0) ].
  split; [vm_compute; reflexivity|].
  refine (proj1 (yielded_identifiers_in_document_order repeated_identifier_document
                   _ _ fresh eq_refl _)).
  vm_compute. reflexivity.
Defined.

(** ** One title: when it succeeds, and a document without title division *)

Lemma existsb_false_forall (f : nat -> bool) (l : list nat) :
  existsb f l = false <-> forall k, In k l -> f k = false.
Proof.
  split.
  - intros H k Hk. destruct (f k) eqn:Hf; [|reflexivity].
    assert (existsb f l = true) by (apply existsb_exists; now exists k). congruence.
  - intros H. destruct (existsb f l) eqn:Hx; [|reflexivity].
    apply existsb_exists in Hx as (k & Hk & Hf). rewrite (H k Hk) in Hf. discriminate.
Qed.

(** X19. The three calls for a title return if and only if every step
    succeeds: the request answers with status 200, the text parses, the
    generator runs to its end, and no database call of the batch fails; the
    number returned is then the number of chapters. *)
Theorem attempt_returns_iff (env : Env) (n count : nat) (w : World) :
  fst (attempt env n w) = Ok count
  <-> exists resp root chapters,
        requests_get env n = Ok resp /\ status_code resp = 200
        /\ fromstring env (resp_text resp) = Ok root
        /\ fst (yield_chapters root fresh) = Ok chapters
        /\ (forall k, k <= S (List.length chapters) -> db_fault env n k = false)
        /\ count = List.length chapters.
Proof.
  rewrite attempt_unfold. split.
  - destruct (requests_get env n) as [resp|e] eqn:Hg; [|discriminate].
    destruct (negb (status_code resp =? 200)%nat) eqn:Hs; [discriminate|].
    apply negb_false_iff, Nat.eqb_eq in Hs.
    destruct (fromstring env (resp_text resp)) as [root|e] eqn:Hp; [|discriminate].
    rewrite (framed_yield_chapters root _).
    destruct (fst (yield_chapters root fresh)) as [chapters|e] eqn:Hy; [|discriminate].
    rewrite insert_rows_spec.
    destruct (db_fault env n 0) eqn:H0; [discriminate|].
    destruct (existsb (db_fault env n) (seq 1 (S (List.length chapters)))) eqn:Hx;
      [discriminate|].
    cbn [fst]. intros [= <-]. exists resp, root, chapters.
    repeat split; try assumption.
    intros k Hk. destruct k as [|k]; [exact H0|].
    apply (proj1 (existsb_false_forall _ _) Hx). apply in_seq. lia.
  - intros (resp & root & chapters & -> & Hs & -> & Hy & Hf & ->).
    rewrite Hs. cbn [Nat.eqb negb]. change (negb (200 =? 200)%nat) with false.
    cbv iota. rewrite (framed_yield_chapters root _), Hy, insert_rows_spec.
    rewrite (Hf 0) by lia.
    assert (existsb (db_fault env n) (seq 1 (S (List.length chapters))) = false) as ->.
    { apply existsb_false_forall. intros k Hk. apply in_seq in Hk. apply Hf. lia. }
    reflexivity.
Qed.

(** X11. A document without title division is no failure: the warning is
    printed, nothing is yielded, and the empty batch still goes to the
    database. The table stays as it is. With a working database the title is
    reported with 0 chapters; when [connect] or [commit] fails it is
    reported as an error, although there was nothing to write. *)
Theorem document_without_title_division
  (env : Env) (n : nat) (resp : Response) (root : Element) (w : World) :
  requests_get env n = Ok resp -> status_code resp = 200 ->
  fromstring env (resp_text resp) = Ok root ->
  ET.find_descendant root "DIV1" "TYPE" "TITLE" = None ->
  fst (process_title env n w) = Ok tt
  /\ table (snd (process_title env n w)) = table w
  /\ stdout (snd (process_title env n w))
     = stdout w
       ++ [ msg_downloading n; msg_no_title;
            if db_fault env n 0 || db_fault env n 1
            then msg_error n DatabaseError
            else msg_inserted n 0 ].
Proof.
  intros Hg Hs Hp Hf. unfold process_title, try_except, io_bind.
  rewrite attempt_unfold, Hg, Hs, Hp. change (negb (200 =? 200)%nat) with false.
  cbv iota. unfold yield_chapters. rewrite Hf. unfold io_bind, print, ret.
  cbv beta iota. rewrite insert_rows_spec.
  cbn [List.length seq existsb map table open_connections stdout].
  destruct (db_fault env n 0);
    [cbn [orb fst snd table stdout]; now rewrite <- !app_assoc|].
  destruct (db_fault env n 1); cbn [orb]; cbv beta iota;
    cbn [fst snd table stdout]; now rewrite <- !app_assoc, ?app_nil_r.
Qed.

(** Title 3 has a document without title division. *)
Definition no_title_division_env : Env :=
  mkEnv (fun _ => Ok (mkResponse 200 "<ECFR/>"))
        (fun _ => Ok (el "ECFR" [] None None [ el "DIV1" [("TYPE", "PART")] None None [] ]))
        (fun _ => false)
        (fun _ _ => false).

Lemma document_without_title_division_witness :
  fst (process_title no_title_division_env 3 fresh) = Ok tt
  /\ table (snd (process_title no_title_division_env 3 fresh)) = []
  /\ stdout (snd (process_title no_title_division_env 3 fresh))
     = [msg_downloading 3; msg_no_title; msg_inserted 3 0].
Proof.
  apply (document_without_title_division no_title_division_env 3
           (mkResponse 200 "<ECFR/>")
           (el "ECFR" [] None None [ el "DIV1" [("TYPE", "PART")] None None [] ]) fresh);
    reflexivity.
Defined.

(** ** The set-up and the whole run *)

(** X14. [setup_postgres] never changes the rows of the table or the
    console. It returns exactly when none of its three database calls
    fails; when [connect] succeeds and a later call fails, it raises and
    its connection stays open. *)
Theorem setup_postgres_effects (env : Env) (w : World) :
  table (snd (setup_postgres env w)) = table w
  /\ stdout (snd (setup_postgres env w)) = stdout w
  /\ (fst (setup_postgres env w) = Ok tt
      <-> setup_fault env 0 = false /\ setup_fault env 1 = false
          /\ setup_fault env 2 = false)
  /\ open_connections (snd (setup_postgres env w))
     = if negb (setup_fault env 0) && (setup_fault env 1 || setup_fault env 2)
       then S (open_connections w)
       else open_connections w.
Proof.
  unfold setup_postgres, io_bind, connect, execute_create, commit, close, ret, raise.
  destruct (setup_fault env 0), (setup_fault env 1), (setup_fault env 2);
    cbn [fst snd table stdout open_connections pending negb andb orb Nat.pred];
    rewrite ?app_nil_r; repeat split; intros; try discriminate;
    try reflexivity; intuition discriminate.
Qed.

(** X15. A failure of the set-up is not contained: [main] raises before the
    first title, the table is as before, and the console holds the set-up
    line only. *)
Theorem main_aborts_when_setup_fails (env : Env) (w : World) :
  setup_fault env 0 = true \/ setup_fault env 1 = true \/ setup_fault env 2 = true ->
  fst (main env w) = Raise DatabaseError
  /\ table (snd (main env w)) = table w
  /\ stdout (snd (main env w)) = stdout w ++ [msg_setup].
Proof.
  intros H. unfold main, io_bind, print. cbv beta iota.
  unfold setup_postgres, io_bind, connect, execute_create, commit, close, ret, raise.
  destruct (setup_fault env 0) eqn:H0; [cbv beta iota; now repeat split|].
  destruct (setup_fault env 1) eqn:H1; [cbv beta iota; now repeat split|].
  destruct (setup_fault env 2) eqn:H2; [cbv beta iota; now repeat split|].
  exfalso. intuition discriminate.
Qed.

(** The database refuses the connection of the set-up. *)
Definition no_database_env : Env :=
  mkEnv (fun _ => Ok (mkResponse 200 "<ECFR/>"))
        (fun _ => Ok minimal_title_document)
        (fun k => (k =? 0)%nat)
        (fun _ _ => true).

Lemma main_aborts_when_setup_fails_witness :
  fst (main no_database_env fresh) = Raise DatabaseError
  /\ table (snd (main no_database_env fresh)) = []
  /\ stdout (snd (main no_database_env fresh)) = [msg_setup].
Proof. apply (main_aborts_when_setup_fails no_database_env fresh). now left. Defined.

(** [main] in closed form, when the set-up succeeds. *)
Lemma main_spec (env : Env) (w : World) :
  (forall k, setup_fault env k = false) ->
  fst (main env w) = Ok tt
  /\ table (snd (main env w)) = table w ++ flat_map (fun t => table (alone env t)) TITLES
  /\ stdout (snd (main env w))
     = (stdout w ++ [msg_setup])
       ++ flat_map (fun t => stdout (alone env t)) TITLES ++ [msg_done].
Proof. intros H. exact (run_spec env TITLES w H). Qed.

(** X16. The table is append-only: a second run in the same environment adds
    the same rows once more, behind those of the first run. *)
Theorem main_rerun_appends (env : Env) (w : World) :
  (forall k, setup_fault env k = false) ->
  exists added,
    table (snd (main env w)) = table w ++ added
    /\ table (snd (main env (snd (main env w)))) = table w ++ added ++ added.
Proof.
  intros H. exists (flat_map (fun t => table (alone env t)) TITLES).
  destruct (main_spec env w H) as (_ & H1 & _).
  destruct (main_spec env (snd (main env w)) H) as (_ & H2 & _).
  split; [exact H1|]. now rewrite H2, H1, app_assoc.
Qed.

Lemma main_rerun_appends_witness :
  List.length (table (snd (main healthy_env fresh))) = 100
  /\ List.length (table (snd (main healthy_env (snd (main healthy_env fresh))))) = 200.
Proof.
  destruct (main_rerun_appends healthy_env fresh) as (added & H1 & H2); [reflexivity|].
  assert (Hlen : List.length (table (snd (main healthy_env fresh))) = 100)
    by (vm_compute; reflexivity).
  split; [exact Hlen|].
  rewrite H2. rewrite H1 in Hlen. cbn [table fresh app] in *.
  rewrite length_app. lia.
Defined.

(** ** Connections on the normal path *)

Lemma yield_chapters_world (root : Element) (w : World) :
  table (snd (yield_chapters root w)) = table w
  /\ open_connections (snd (yield_chapters root w)) = open_connections w
  /\ stdout (snd (yield_chapters root w))
     = stdout w ++ match ET.find_descendant root "DIV1" "TYPE" "TITLE" with
                   | None => [msg_no_title]
                   | Some _ => []
                   end.
Proof.
  unfold yield_chapters.
  destruct (ET.find_descendant root "DIV1" "TYPE" "TITLE"); simpl;
    now rewrite ?app_nil_r.
Qed.






(** ** The console of a run *)

(** The line that announces a download. *)
Definition is_downloading (l : line) : bool :=
  match l with
  | msg_downloading _ => true
  | _ => false
  end.

(** The line that reports the outcome of a title. *)
Definition is_outcome (l : line) : bool :=
  match l with
  | msg_inserted _ _ | msg_error _ _ => true
  | _ => false
  end.

(** The outcome line of a title, from what its three calls do. *)
Definition outcome (env : Env) (n : nat) : line :=
  match fst (attempt env n fresh) with
  | Ok count => msg_inserted n count
  | Raise e => msg_error n e
  end.

Lemma attempt_stdout (env : Env) (n : nat) (w : World) :
  exists mid,
    (mid = [] \/ mid = [msg_no_title])
    /\ stdout (snd (attempt env n w)) = stdout w ++ msg_downloading n :: mid.
Proof.
  rewrite attempt_unfold.
  destruct (requests_get env n) as [resp|e]; [|now exists []; split; [left|]].
  destruct (negb (status_code resp =? 200)%nat); [now exists []; split; [left|]|].
  destruct (fromstring env (resp_text resp)) as [root|e];
    [|now exists []; split; [left|]].
  match goal with |- context [yield_chapters root ?W] =>
    destruct (yield_chapters_world root W) as (_ & _ & Hs);
    destruct (yield_chapters root W) as [[chapters|e] w2] end;
    cbn [snd stdout] in Hs.
  - exists (match ET.find_descendant root "DIV1" "TYPE" "TITLE" with
            | None => [msg_no_title]
            | Some _ => []
            end).
    split; [destruct (ET.find_descendant root "DIV1" "TYPE" "TITLE"); auto|].
    rewrite insert_rows_spec.
    destruct (db_fault env n 0);
      [|destruct (existsb (db_fault env n) (seq 1 (S (List.length chapters))))];
      cbn [snd stdout]; rewrite Hs, <- app_assoc; reflexivity.
  - exists (match ET.find_descendant root "DIV1" "TYPE" "TITLE" with
            | None => [msg_no_title]
            | Some _ => []
            end).
    split; [destruct (ET.find_descendant root "DIV1" "TYPE" "TITLE"); auto|].
    cbn [snd stdout]. rewrite Hs, <- app_assoc. reflexivity.
Qed.

Lemma alone_stdout (env : Env) (n : nat) :
  exists mid,
    (mid = [] \/ mid = [msg_no_title])
    /\ stdout (alone env n) = msg_downloading n :: mid ++ [outcome env n].
Proof.
  destruct (attempt_stdout env n fresh) as (mid & Hmid & Hs).
  exists mid. split; [exact Hmid|].
  unfold alone, outcome, process_title, try_except, io_bind, print.
  destruct (attempt env n fresh) as [[c|e] d]; cbn [fst snd stdout] in *;
    rewrite Hs; reflexivity.
Qed.

Lemma filter_flat_map {A B : Type} (f : B -> bool) (g : A -> list B) (l : list A) :
  List.filter f (flat_map g l) = flat_map (fun a => List.filter f (g a)) l.
Proof.
  induction l as [|a l IH]; simpl; [reflexivity|]. now rewrite List.filter_app, IH.
Qed.

Lemma flat_map_singleton {A B : Type} (g : A -> B) (l : list A) :
  flat_map (fun a => [g a]) l = map g l.
Proof. induction l as [|a l IH]; simpl; [reflexivity | now rewrite IH]. Qed.

(** X18. Whatever fails, a run announces every title from 1 to 50 exactly
    once and in ascending order, and reports exactly one outcome for each,
    in the same order: the number of chapters when its three calls return,
    the exception when they raise. *)
Theorem main_console (env : Env) (w : World) :
  (forall k, setup_fault env k = false) ->
  List.filter is_downloading (stdout (snd (main env w)))
  = List.filter is_downloading (stdout w) ++ map msg_downloading (seq 1 50)
  /\ List.filter is_outcome (stdout (snd (main env w)))
     = List.filter is_outcome (stdout w) ++ map (outcome env) (seq 1 50).
Proof.
  intros H. destruct (main_spec env w H) as (_ & _ & Hs). rewrite Hs.
  rewrite !List.filter_app, !filter_flat_map. cbn [List.filter is_downloading is_outcome].
  rewrite !app_nil_r. split; f_equal.
  - rewrite <- flat_map_singleton. apply flat_map_ext. intros n.
    destruct (alone_stdout env n) as (mid & [->| ->] & ->); cbn [List.filter app is_downloading];
      unfold outcome; now destruct (fst (attempt env n fresh)).
  - rewrite <- flat_map_singleton. apply flat_map_ext. intros n.
    destruct (alone_stdout env n) as (mid & [->| ->] & ->); cbn [List.filter app is_outcome];
      unfold outcome; now destruct (fst (attempt env n fresh)).
Qed.

Lemma main_console_witness :
  List.filter is_downloading (stdout (snd (main title_13_missing_env fresh)))
  = map msg_downloading (seq 1 50)
  /\ nth_error (List.filter is_outcome (stdout (snd (main title_13_missing_env fresh)))) 12
     = Some (msg_error 13 (RuntimeError 13 404)).
Proof.
  destruct (main_console title_13_missing_env fresh (fun _ => eq_refl)) as [H1 H2].
  split; [exact H1|]. rewrite H2. vm_compute. reflexivity.
Defined.

(** ** The order of the rows *)

From Stdlib Require Import Sorted.

Lemma sorted_app (l1 l2 : list nat) :
  StronglySorted le l1 -> StronglySorted le l2 ->
  (forall x y, In x l1 -> In y l2 -> x <= y) ->
  StronglySorted le (l1 ++ l2).
Proof.
  intros H1 H2 H. induction H1 as [|x l1 H1 IH Hx]; simpl; [exact H2|].
  constructor.
  - apply IH. intros a b Ha Hb. apply H; [now right | exact Hb].
  - apply List.Forall_app. split; [exact Hx|].
    apply List.Forall_forall. intros y Hy. apply H; [now left | exact Hy].
Qed.

Lemma sorted_constant (a : nat) (l : list nat) :
  Forall (fun x => x = a) l -> StronglySorted le l.
Proof.
  induction 1 as [|x l Hx Hl IH]; constructor; [exact IH|].
  subst x. apply List.Forall_forall. intros y Hy.
  rewrite List.Forall_forall in Hl. rewrite (Hl y Hy). lia.
Qed.

Lemma titles_sorted (f : nat -> list Row) (len a : nat) :
  (forall m, Forall (fun r => col_title r = m) (f m)) ->
  StronglySorted le (map col_title (flat_map f (seq a len)))
  /\ Forall (fun t => a <= t) (map col_title (flat_map f (seq a len))).
Proof.
  intros Hf. revert a. induction len as [|len IH]; intros a; simpl.
  - split; constructor.
  - destruct (IH (S a)) as [Hs Hge].
    assert (Ha : Forall (fun x => x = a) (map col_title (f a))).
    { apply List.Forall_forall. intros x Hx. apply in_map_iff in Hx as (r & <- & Hr).
      specialize (Hf a). rewrite List.Forall_forall in Hf. now apply Hf. }
    rewrite List.map_app. split.
    + apply sorted_app; [now apply (sorted_constant a) | exact Hs|].
      intros x y Hx Hy. rewrite List.Forall_forall in Ha, Hge.
      rewrite (Ha x Hx). specialize (Hge y Hy). lia.
    + apply List.Forall_app. split.
      * apply List.Forall_forall. intros x Hx. rewrite List.Forall_forall in Ha.
        rewrite (Ha x Hx). lia.
      * apply List.Forall_forall. intros y Hy. rewrite List.Forall_forall in Hge.
        specialize (Hge y Hy). lia.
Qed.

(** X20. The rows a run adds are in ascending order of their title: all rows
    of a title stand together, behind those of every smaller title. *)
Theorem main_rows_in_title_order (env : Env) (w : World) :
  (forall k, setup_fault env k = false) ->
  exists added,
    table (snd (main env w)) = table w ++ added
    /\ StronglySorted le (map col_title added).
Proof.
  intros H. destruct (main_spec env w H) as (_ & Ht & _).
  exists (flat_map (fun t => table (alone env t)) TITLES). split; [exact Ht|].
  apply (titles_sorted (fun t => table (alone env t)) 50 1).
  intros m. apply alone_rows_have_title.
Qed.

Lemma main_rows_in_title_order_witness :
  exists added,
    table (snd (main title_13_missing_env fresh)) = added
    /\ StronglySorted le (map col_title added).
Proof.
  destruct (main_rows_in_title_order title_13_missing_env fresh (fun _ => eq_refl))
    as (added & H1 & H2).
  exists added. split; [exact H1 | exact H2].
Defined.

(** ** No double counting in documents of the schema *)

Lemma iter_pieces (e c : Element) (p : string) :
  In c (ET.iter e) -> In p (text_pieces c) -> In p (text_pieces e).
Proof.
  revert c. induction e as [t a tx tl cs IH] using Element_forall_ind.
  intros c Hc Hp. cbn [ET.iter children] in Hc. destruct Hc as [<-|Hc]; [exact Hp|].
  apply in_flat_map in Hc as (c' & Hc' & Hin).
  rewrite List.Forall_forall in IH.
  apply (text_pieces_child _ c'); [exact Hc'|]. now apply (IH c' Hc' c).
Qed.

Lemma no_chapter_filter (e : Element) :
  has_chapter e = false -> List.filter is_chapter (ET.iter e) = [].
Proof.
  intros H. rewrite <- chapter_positions_elements.
  pose proof (no_chapter_no_position e H) as Hp. unfold chapter_positions in Hp.
  apply map_eq_nil in Hp. now rewrite Hp.
Qed.

(** The sum of the word counts of the text nodes of a subtree. *)
Definition text_words (e : Element) : nat :=
  list_sum (map word_count (text_pieces e)).

Lemma chapter_words_within (e : Element) :
  chapters_flat e = true ->
  list_sum (map text_words (List.filter is_chapter (ET.iter e))) <= text_words e.
Proof.
  induction e as [t a tx tl cs IH] using Element_forall_ind.
  cbn [chapters_flat ET.iter children List.filter]. rewrite filter_flat_map.
  destruct (is_chapter (mkElement t a tx tl cs)) eqn:Hch; intros Hflat.
  - apply negb_true_iff in Hflat.
    assert (Hnil : flat_map (fun c => List.filter is_chapter (ET.iter c)) cs = []).
    { clear IH. induction cs as [|c cs IHcs]; [reflexivity|].
      simpl in Hflat. apply orb_false_iff in Hflat as [Hc Hcs].
      simpl. now rewrite (no_chapter_filter c Hc), IHcs. }
    rewrite Hnil. simpl. lia.
  - unfold text_words at 2. cbn [text_pieces text children].
    rewrite List.map_app, list_sum_app.
    enough (G : list_sum (map text_words
                            (flat_map (fun c => List.filter is_chapter (ET.iter c)) cs))
                <= list_sum (map word_count
                               (flat_map (fun c => text_pieces c ++ text_node (tail c)) cs)))
      by lia.
    clear Hch. induction IH as [|c cs Hc _ IHcs]; [simpl; lia|].
    simpl in Hflat. apply andb_true_iff in Hflat as [Hfc Hfcs].
    simpl. rewrite !List.map_app, !list_sum_app.
    specialize (Hc Hfc). specialize (IHcs Hfcs). unfold text_words in Hc at 2. lia.
Qed.

(** X21. In a title division of the schema (no chapter element inside a
    chapter element) whose text nodes contain no [<], no word is counted for
    two chapters: the word counts of all yielded chapters together are not
    more than the word count of the whole title division. *)
Theorem chapter_word_counts_within_title
  (title_elem : Element) (chapters : list (string * string * nat)) :
  chapters_flat title_elem = true ->
  Forall (fun p => PyStr.contains "<" p = false) (text_pieces title_elem) ->
  collect chapter_tuple (List.filter is_chapter (ET.iter title_elem)) = Ok chapters ->
  list_sum (map snd chapters) <= word_count (normalize title_elem).
Proof.
  intros Hflat Hlt Hc.
  rewrite (word_count_normalize _ Hlt). fold (text_words title_elem).
  rewrite (collect_ok_map chapter_tuple snd (fun c => word_count (normalize c)) _ _
             ltac:(intros c [[l hd] wc]; unfold chapter_tuple;
                   destruct (ET.find c "HEAD") as [h|]; simpl;
                   [destruct (text h); simpl|]; try discriminate;
                   now intros [= _ _ <-]) Hc).
  rewrite (map_ext_in _ text_words).
  - now apply chapter_words_within.
  - intros c Hin. apply filter_In in Hin as [Hin _].
    apply word_count_normalize. rewrite List.Forall_forall in *.
    intros p Hp. apply Hlt. now apply (iter_pieces _ c).
Qed.

Lemma chapter_word_counts_within_title_witness :
  list_sum (map snd two_chapters)
  <= word_count
       (normalize
          (el "DIV1" [("N", "1"); ("TYPE", "TITLE")] None None
             [ el "DIV3" [("N", "I"); ("TYPE", "CHAPTER")] None None
                 [ el "HEAD" [] (Some "Chapter I - General") None [];
                   el "P" [] (Some "This part applies.") None [] ];
               el "DIV3" [("N", "II"); ("TYPE", "CHAPTER")] None None
                 [ el "HEAD" [] (Some "Chapter II - [Reserved]") None [] ] ])).
Proof.
  apply chapter_word_counts_within_title.
  - vm_compute. reflexivity.
  - repeat constructor.
  - vm_compute. reflexivity.
Defined.

(** With a chapter inside a chapter the sum is more than the whole: 10 words
    for the two chapters of a title division of 6 words. *)
Example nested_chapter_word_counts_exceed_title :
  word_count (normalize nested_chapter_title) = 6.
Proof. vm_compute. reflexivity. Qed.
